(** * dahead/space: the df report parser and the size / bar formatter

    A shallow embedding of [main.go]: the parser [parseDfOutput] with the
    library calls it makes ([strings.Split], [strings.TrimSpace],
    [strings.HasPrefix], [strings.TrimSuffix], [regexp.Split] for [\s+],
    [strconv.ParseInt], [strconv.Atoi]), the size formatter [formatSize],
    and the display loop of [Model.View] with its bar computation.

    Conventions.
    - A Go [string] is a sequence of bytes: Rocq's [string], whose
      characters are the 256 [ascii] values.  Non-ASCII literals of the
      source are their UTF-8 bytes.
    - [int64] and [int] (64 bits wide on the platforms the program targets)
      are [Z] with the two's-complement wrap-around [wrap64] written out
      where the source computes.
    - [float64] is modelled exactly: a finite double is a dyadic rational
      [mant * 2^exp] held as a pair of integers, and conversion, division
      and multiplication round to nearest, ties to even, at 53 bits.
    - A library call that returns [(value, err)] returns a pair whose
      second component is a [numError]. *)

From Stdlib Require Import ZArith List Bool Ascii String Lia.
From Stdlib Require SpecFloat.
Import ListNotations.

Open Scope string_scope.
Open Scope Z_scope.

(** ** Bytes and strings *)

Definition byteVal (c : ascii) : Z := Z.of_N (N_of_ascii c).

Definition byteOf (z : Z) : ascii := ascii_of_N (Z.to_N z).

Definition isByte (c : ascii) (z : Z) : bool := byteVal c =? z.

Definition nl : ascii := byteOf 10.

Fixpoint rev (s : string) : string :=
  match s with
  | EmptyString => EmptyString
  | String c s' => rev s' ++ String c EmptyString
  end.

(** [strings.HasPrefix(s, prefix)]. *)
Fixpoint HasPrefix (s prefix : string) {struct prefix} : bool :=
  match prefix with
  | EmptyString => true
  | String p prefix' =>
      match s with
      | EmptyString => false
      | String c s' => Ascii.eqb c p && HasPrefix s' prefix'
      end
  end.

(** [strings.HasSuffix(s, suffix)]. *)
Definition HasSuffix (s suffix : string) : bool :=
  HasPrefix (rev s) (rev suffix).

(** [strings.TrimSuffix(s, suffix)]: [s] without the trailing [suffix],
    removed once; [s] itself when it does not end with [suffix]. *)
Definition TrimSuffix (s suffix : string) : string :=
  if HasSuffix s suffix
  then substring 0 (String.length s - String.length suffix) s
  else s.

(** [strings.Split(s, sep)] for a separator of one byte, the only use the
    program makes of it ([sep = "\n"]).  The empty string splits into one
    empty piece. *)
Fixpoint Split (s : string) (sep : ascii) : list string :=
  match s with
  | EmptyString => [EmptyString]
  | String c s' =>
      if Ascii.eqb c sep then EmptyString :: Split s' sep
      else match Split s' sep with
           | piece :: rest => String c piece :: rest
           | [] => [String c EmptyString]
           end
  end.

(** *** [strings.TrimSpace]

    [TrimSpace] removes leading and trailing white space as Unicode defines
    it ([unicode.IsSpace]), decoding the bytes as UTF-8.  The white-space
    code points and their encodings:
    U+0009..U+000D and U+0020 (one byte); U+0085 [C2 85], U+00A0 [C2 A0];
    U+1680 [E1 9A 80]; U+2000..U+200A [E2 80 80..8A]; U+2028 [E2 80 A8];
    U+2029 [E2 80 A9]; U+202F [E2 80 AF]; U+205F [E2 81 9F];
    U+3000 [E3 80 80].  A byte sequence that is not one of these decodes to
    another rune or to the error rune, neither of which is white space. *)

Definition asciiSpace (c : ascii) : bool :=
  let v := byteVal c in ((9 <=? v) && (v <=? 13)) || (v =? 32).

Definition isSpace2 (a b : ascii) : bool :=
  isByte a 194 && (isByte b 133 || isByte b 160).

Definition isSpace3 (a b c : ascii) : bool :=
  let vc := byteVal c in
  (isByte a 225 && isByte b 154 && isByte c 128)
  || (isByte a 226 && isByte b 128
      && (((128 <=? vc) && (vc <=? 138)) || (vc =? 168) || (vc =? 169)
          || (vc =? 175)))
  || (isByte a 226 && isByte b 129 && isByte c 159)
  || (isByte a 227 && isByte b 128 && isByte c 128).

(** Leading white-space runes removed, one rune at a time. *)
Fixpoint trimLeftSpace (s : string) : string :=
  match s with
  | EmptyString => EmptyString
  | String a s1 =>
      if asciiSpace a then trimLeftSpace s1
      else match s1 with
           | EmptyString => s
           | String b s2 =>
               if isSpace2 a b then trimLeftSpace s2
               else match s2 with
                    | EmptyString => s
                    | String c s3 =>
                        if isSpace3 a b c then trimLeftSpace s3 else s
                    end
           end
  end.

(** The same scan over the reversed string: the last rune of the original
    is read off the front, its bytes in reverse order. *)
Fixpoint trimLeftSpaceRev (r : string) : string :=
  match r with
  | EmptyString => EmptyString
  | String a r1 =>
      if asciiSpace a then trimLeftSpaceRev r1
      else match r1 with
           | EmptyString => r
           | String b r2 =>
               if isSpace2 b a then trimLeftSpaceRev r2
               else match r2 with
                    | EmptyString => r
                    | String c r3 =>
                        if isSpace3 c b a then trimLeftSpaceRev r3 else r
                    end
           end
  end.

Definition trimRightSpace (s : string) : string :=
  rev (trimLeftSpaceRev (rev s)).

Definition TrimSpace (s : string) : string :=
  trimRightSpace (trimLeftSpace s).

(** *** [regexp.MustCompile(`\s+`).Split(line, -1)]

    In Go's RE2 syntax [\s] is the class [[\t\n\f\r ]] (no vertical tab, no
    Unicode space).  [Split] cuts the text at every maximal run of these
    bytes; a run at the very start or end leaves an empty piece there, and
    the empty text gives one empty piece. *)

Definition reSpace (c : ascii) : bool :=
  let v := byteVal c in
  (v =? 9) || (v =? 10) || (v =? 12) || (v =? 13) || (v =? 32).

(** [inMatch] says that the byte before [s] belongs to a run being skipped. *)
Fixpoint reSplit (s : string) (inMatch : bool) : list string :=
  match s with
  | EmptyString => [EmptyString]
  | String c s' =>
      if reSpace c then
        if inMatch then reSplit s' true
        else EmptyString :: reSplit s' true
      else match reSplit s' false with
           | piece :: rest => String c piece :: rest
           | [] => [String c EmptyString]
           end
  end.

Definition splitDfLine (line : string) : list string := reSplit line false.

(** ** Machine integers *)

Definition wrap64 (z : Z) : Z := (z + 2 ^ 63) mod 2 ^ 64 - 2 ^ 63.

Definition maxInt64 : Z := 2 ^ 63 - 1.
Definition minInt64 : Z := - 2 ^ 63.
Definition maxUint64 : Z := 2 ^ 64 - 1.

Definition inInt64 (z : Z) : Prop := minInt64 <= z <= maxInt64.

(** ** [strconv] *)

Inductive numError : Type :=
| NoError
| ErrSyntax
| ErrRange.

(** The digit loop of [strconv.ParseUint(s, 10, 64)]: [n] is the value read
    so far.  A byte that is not a decimal digit is a syntax error; a value
    past [maxUint64] is a range error, reported at once with [maxUint64],
    before the remaining bytes are looked at. *)
Fixpoint parseUintLoop (s : string) (n : Z) : Z * numError :=
  match s with
  | EmptyString => (n, NoError)
  | String c s' =>
      let v := byteVal c in
      if (48 <=? v) && (v <=? 57) then
        let d := v - 48 in
        if n >=? (maxUint64 / 10 + 1) then (maxUint64, ErrRange)
        else
          let n1 := n * 10 + d in
          if n1 >? maxUint64 then (maxUint64, ErrRange)
          else parseUintLoop s' n1
      else (0, ErrSyntax)
  end.

Definition ParseUint (s : string) : Z * numError :=
  match s with
  | EmptyString => (0, ErrSyntax)
  | _ => parseUintLoop s 0
  end.

(** [strconv.ParseInt(s, 10, 64)]. *)
Definition ParseInt (s : string) : Z * numError :=
  match s with
  | EmptyString => (0, ErrSyntax)
  | String c0 s1 =>
      let neg := isByte c0 45 in
      let body := if isByte c0 43 || isByte c0 45 then s1 else s in
      match ParseUint body with
      | (_, ErrSyntax) => (0, ErrSyntax)
      | (un, _) =>
          let cutoff := 2 ^ 63 in
          if negb neg && (un >=? cutoff) then (cutoff - 1, ErrRange)
          else if neg && (un >? cutoff) then (- cutoff, ErrRange)
          else (wrap64 (if neg then - wrap64 un else wrap64 un), NoError)
      end
  end.

(** The fast path of [strconv.Atoi]: digits accumulated in an [int]. *)
Fixpoint atoiLoop (s : string) (n : Z) : Z * numError :=
  match s with
  | EmptyString => (n, NoError)
  | String c s' =>
      let ch := (byteVal c - 48) mod 256 in
      if ch >? 9 then (0, ErrSyntax)
      else atoiLoop s' (wrap64 (n * 10 + ch))
  end.

(** [strconv.Atoi(s)] with a 64-bit [int]: the fast path for 1 to 18 bytes,
    [ParseInt] otherwise. *)
Definition Atoi (s : string) : Z * numError :=
  let sLen := Z.of_nat (String.length s) in
  if (0 <? sLen) && (sLen <? 19) then
    match s with
    | EmptyString => (0, ErrSyntax)
    | String c0 s1 =>
        let signed := isByte c0 45 || isByte c0 43 in
        let body := if signed then s1 else s in
        if signed && (Z.of_nat (String.length body) <? 1) then (0, ErrSyntax)
        else
          match atoiLoop body 0 with
          | (n, NoError) => (if isByte c0 45 then wrap64 (- n) else n, NoError)
          | r => r
          end
    end
  else ParseInt s.

(** ** The parser *)

(** [DiskInfo]: one row of the report. *)
Record DiskInfo : Type := mkDiskInfo {
  Filesystem : string;
  Size : Z;
  Used : Z;
  Available : Z;
  UsePercent : Z;
  MountPoint : string
}.

(** [fields[i]], read only after the length check of the loop. *)
Definition field (fields : list string) (i : nat) : string :=
  nth i fields EmptyString.

Definition hasDfPrefix (line : string) : bool :=
  HasPrefix line "/" || HasPrefix line "tmpfs" || HasPrefix line "devtmpfs".

(** The body of the [for] loop of [parseDfOutput] run over the lines from
    index 1 on; [diskInfos] is the slice appended to. *)
Fixpoint parseLines (lines : list string) (diskInfos : list DiskInfo)
  : list DiskInfo :=
  match lines with
  | [] => diskInfos
  | raw :: rest =>
      let line := TrimSpace raw in
      if String.eqb line EmptyString then parseLines rest diskInfos
      else if negb (HasPrefix line "/") && negb (HasPrefix line "tmpfs")
              && negb (HasPrefix line "devtmpfs")
      then parseLines rest diskInfos
      else
        let fields := splitDfLine line in
        if (List.length fields <? 6)%nat then parseLines rest diskInfos
        else
          let size := fst (ParseInt (field fields 1)) in
          let used := fst (ParseInt (field fields 2)) in
          let avail := fst (ParseInt (field fields 3)) in
          let usePercentStr := TrimSuffix (field fields 4) "%" in
          let usePercent := fst (Atoi usePercentStr) in
          parseLines rest
            (diskInfos ++
             [ {| Filesystem := field fields 0;
                  Size := wrap64 (size * 1024);
                  Used := wrap64 (used * 1024);
                  Available := wrap64 (avail * 1024);
                  UsePercent := usePercent;
                  MountPoint := field fields 5 |} ])
  end.

(** [parseDfOutput]: the lines of the text, the first one skipped. *)
Definition parseDfOutput (output : string) : list DiskInfo :=
  parseLines (skipn 1 (Split output nl)) [].

(** ** Floating point

    A finite [float64] value is [mant * 2 ^ expo].  The operations below
    produce the correctly rounded result (round to nearest, ties to even,
    53 significant bits), which is what IEEE 754 prescribes for conversion,
    division and multiplication.  Exponent limits are not modelled: every
    value the program computes is zero or of magnitude between 2^-7 and
    2^64.  The divisors of the program are the non-zero constants 100,
    [KB], [MB], [GB] and [TB]. *)

Record float64 : Type := mkFloat { mant : Z; expo : Z }.

Definition bitLen (m : Z) : Z :=
  if m =? 0 then 0 else Z.log2 (Z.abs m) + 1.

(** [num / den] rounded to the nearest integer, ties to even
    ([0 <= num], [0 < den]). *)
Definition roundHalfEven (num den : Z) : Z :=
  let q := num / den in
  let r := num mod den in
  if (2 * r >? den) || ((2 * r =? den) && Z.odd q) then q + 1 else q.

(** [m * 2 ^ e] rounded to 53 significant bits. *)
Definition roundFloat (m e : Z) : float64 :=
  let n := bitLen m in
  if n <=? 53 then mkFloat m e
  else
    let k := n - 53 in
    mkFloat (Z.sgn m * roundHalfEven (Z.abs m) (2 ^ k)) (e + k).

(** The conversion [float64(i)] of an integer. *)
Definition float64_of_int (i : Z) : float64 := roundFloat i 0.

(** [x / y]: the quotient of the mantissas is taken with at least 55 bits
    and a sticky bit for a non-zero remainder, then rounded. *)
Definition fdiv (x y : float64) : float64 :=
  let ax := Z.abs (mant x) in
  let ay := Z.abs (mant y) in
  let k := Z.max 0 (55 + bitLen ay - bitLen ax) in
  let num := ax * 2 ^ k in
  let q := num / ay in
  let sticky := if num mod ay =? 0 then 0 else 1 in
  roundFloat (Z.sgn (mant x) * Z.sgn (mant y) * (2 * q + sticky))
             (expo x - expo y - k - 1).

(** [x * y]: the exact product, rounded. *)
Definition fmul (x y : float64) : float64 :=
  roundFloat (mant x * mant y) (expo x + expo y).

(** The conversion [int(x)]: the fraction is discarded. *)
Definition truncInt (x : float64) : Z :=
  if expo x >=? 0 then mant x * 2 ^ expo x
  else Z.quot (mant x) (2 ^ (- expo x)).

(** The negation [- x]. *)
Definition fneg (x : float64) : float64 := mkFloat (- mant x) (expo x).

(** The integer a value with a non-negative exponent stands for. *)
Definition intValue (x : float64) : Z := mant x * 2 ^ expo x.

(** ** [fmt] *)

Definition digit (d : Z) : ascii := byteOf (48 + d).

(** Decimal digits of a non-negative integer, least significant first, as
    [strconv]'s [formatBits] produces them. *)
Fixpoint utoaLoop (fuel : nat) (n : Z) (acc : string) : string :=
  match fuel with
  | O => acc
  | S fuel' =>
      let acc' := String (digit (n mod 10)) acc in
      if n <? 10 then acc' else utoaLoop fuel' (n / 10) acc'
  end.

Definition utoa (n : Z) : string :=
  utoaLoop (S (Z.to_nat (Z.log2 n))) n EmptyString.

(** The verb [%d]. *)
Definition itoa (n : Z) : string :=
  if n <? 0 then "-" ++ utoa (- n) else utoa n.

(** A count of hundredths [q] written with two decimals. *)
Definition twoDecimals (q : Z) : string :=
  utoa (q / 100) ++ "."
  ++ String (digit (q / 10 mod 10)) (String (digit (q mod 10)) EmptyString).

(** The verb [%.2f] on a finite value: the exact decimal expansion rounded
    to two decimals, ties to even. *)
Definition formatFloat2 (x : float64) : string :=
  let a := Z.abs (mant x) in
  let q := if expo x >=? 0 then a * 2 ^ expo x * 100
           else roundHalfEven (a * 100) (2 ^ (- expo x)) in
  (if mant x <? 0 then "-" else EmptyString) ++ twoDecimals q.

(** ** [formatSize] *)

Definition KB : Z := 1024.
Definition MB : Z := 1024 * KB.
Definition GB : Z := 1024 * MB.
Definition TB : Z := 1024 * GB.

Definition formatSize (size : Z) : string :=
  if size >=? TB then
    formatFloat2 (fdiv (float64_of_int size) (float64_of_int TB)) ++ " TB"
  else if size >=? GB then
    formatFloat2 (fdiv (float64_of_int size) (float64_of_int GB)) ++ " GB"
  else if size >=? MB then
    formatFloat2 (fdiv (float64_of_int size) (float64_of_int MB)) ++ " MB"
  else if size >=? KB then
    formatFloat2 (fdiv (float64_of_int size) (float64_of_int KB)) ++ " KB"
  else itoa size ++ " B".

(** ** The usage bar of [View] *)

Definition barWidth : Z := 30.

Definition usedChars (usePercent : Z) : Z :=
  truncInt (fmul (fdiv (float64_of_int usePercent) (mkFloat 100 0))
                 (float64_of_int barWidth)).

Definition availChars (usePercent : Z) : Z :=
  wrap64 (barWidth - usedChars usePercent).

(** ** [Model.View] *)

(** A call that can panic returns the value or the panic message. *)
Inductive outcome (A : Type) : Type :=
| Done (a : A)
| Panic (msg : string).
Arguments Done {A} a.
Arguments Panic {A} msg.

Definition bind {A B : Type} (x : outcome A) (k : A -> outcome B)
  : outcome B :=
  match x with
  | Done a => k a
  | Panic msg => Panic msg
  end.

Notation "x <- c ;; k" := (bind c (fun x => k))
  (at level 61, c at next level, right associativity).

Fixpoint replicate (n : nat) (s : string) : string :=
  match n with
  | O => EmptyString
  | S n' => s ++ replicate n' s
  end.

(** [strings.Repeat(s, count)]: panics on a negative count and on a result
    longer than the largest [int].  The allocation of the result is taken
    to succeed: the program itself fails in it (a panic of [makeslice], or
    no memory left) for a count of billions of cells, so what is stated
    about [Repeat] and its callers below is stated for counts of a few
    hundred cells at most. *)
Definition Repeat (s : string) (count : Z) : outcome string :=
  if count <? 0 then Panic "strings: negative Repeat count"
  else if Z.of_nat (String.length s) * count >? maxInt64
  then Panic "strings: Repeat output length overflow"
  else Done (replicate (Z.to_nat count) s).

(** The six [lipgloss] styles of [View]; [Render] of a style is a function
    on strings supplied by that library. *)
Record styles : Type := mkStyles {
  fsStyle : string -> string;
  sizeStyle : string -> string;
  mountStyle : string -> string;
  usedStyle : string -> string;
  availStyle : string -> string;
  percentStyle : string -> string
}.

Record Model : Type := mkModel {
  diskInfos : list DiskInfo;
  err : option string
}.

Definition lf : string := String nl EmptyString.

(** The body of the [if] inside the loop of [View]: the block of one
    record. *)
Definition deviceInfo (st : styles) (di : DiskInfo) : outcome string :=
  let size := formatSize (Size di) in
  let used := formatSize (Used di) in
  let avail := formatSize (Available di) in
  let usedCount := usedChars (UsePercent di) in
  let availCount := wrap64 (barWidth - usedCount) in
  usedRun <- Repeat "█" usedCount ;;
  availRun <- Repeat "░" availCount ;;
  let usedBar := usedStyle st usedRun in
  let availBar := availStyle st availRun in
  Done (fsStyle st (Filesystem di) ++ lf
        ++ "├─ Size: " ++ sizeStyle st size ++ lf
        ++ "├─ Used: " ++ usedStyle st used ++ lf
        ++ "├─ Available: " ++ availStyle st avail ++ lf
        ++ "├─ Usage: " ++ percentStyle st (itoa (UsePercent di) ++ "%") ++ lf
        ++ "├─ Mounted on: " ++ mountStyle st (MountPoint di) ++ lf
        ++ "└─ [" ++ usedBar ++ availBar ++ "]" ++ lf ++ lf).

(** The [for] loop of [View]; [sb] is the string builder. *)
Fixpoint viewLoop (st : styles) (infos : list DiskInfo) (sb : string)
  : outcome string :=
  match infos with
  | [] => Done sb
  | di :: rest =>
      if HasPrefix (Filesystem di) "/dev" || HasPrefix (Filesystem di) "/"
      then block <- deviceInfo st di ;; viewLoop st rest (sb ++ block)
      else viewLoop st rest sb
  end.

Definition View (st : styles) (m : Model) : outcome string :=
  match err m with
  | Some e => Done ("Error: " ++ e)
  | None =>
      match diskInfos m with
      | [] => Done "Loading disk information..."
      | infos => viewLoop st infos EmptyString
      end
  end.

(** ** Sample inputs *)

Definition header : string :=
  "Filesystem 1K-blocks Used Available Use% Mounted on".

Definition report (row : string) : string := header ++ String nl row.

Definition sampleReport : string :=
  report "/dev/sda1 1048576 524288 524288 50% /".

(** The row whose size token is one past the largest [int64]. *)
Definition overflowRow : string :=
  "/dev/sda1 9223372036854775808 524288 524288 50% /".

(** The row whose size token is a negative number. *)
Definition negativeRow : string := "/dev/sda1 -1 524288 524288 50% /".

(** The row of a memory-backed filesystem. *)
Definition tmpfsRow : string := "tmpfs 1048576 524288 524288 50% /run".

(** The row whose percent token has a doubled suffix after digits that
    overflow. *)
Definition doubledOverflowRow : string :=
  "/dev/sda1 1048576 524288 524288 99999999999999999999%% /".

Definition plain : styles :=
  mkStyles (fun s => s) (fun s => s) (fun s => s)
           (fun s => s) (fun s => s) (fun s => s).

(** ** The parser, line by line *)

(** The records one line contributes. *)
Definition lineRecords (raw : string) : list DiskInfo := parseLines [raw] [].

(** The record built from the tokens of an accepted line. *)
Definition recordOf (fields : list string) : DiskInfo :=
  {| Filesystem := field fields 0;
     Size := wrap64 (fst (ParseInt (field fields 1)) * 1024);
     Used := wrap64 (fst (ParseInt (field fields 2)) * 1024);
     Available := wrap64 (fst (ParseInt (field fields 3)) * 1024);
     UsePercent := fst (Atoi (TrimSuffix (field fields 4) "%"));
     MountPoint := field fields 5 |}.

(** A line is accepted when its trimmed text is not empty, starts with one
    of the three prefixes and splits into six tokens or more. *)
Definition accepted (raw : string) : bool :=
  negb (String.eqb (TrimSpace raw) EmptyString)
  && hasDfPrefix (TrimSpace raw)
  && (6 <=? List.length (splitDfLine (TrimSpace raw)))%nat.

(** No byte of the string is matched by [\s]. *)
Fixpoint spaceFree (s : string) : bool :=
  match s with
  | EmptyString => true
  | String c s' => negb (reSpace c) && spaceFree s'
  end.

(** ** The display, record by record *)

(** The records [View] writes a block for. *)
Definition shown (di : DiskInfo) : bool := HasPrefix (Filesystem di) "/".

(** The block of a record whose two cell counts are not negative. *)
Definition blockText (st : styles) (di : DiskInfo) : string :=
  let usedCount := usedChars (UsePercent di) in
  let availCount := barWidth - usedCount in
  fsStyle st (Filesystem di) ++ lf
  ++ "├─ Size: " ++ sizeStyle st (formatSize (Size di)) ++ lf
  ++ "├─ Used: " ++ usedStyle st (formatSize (Used di)) ++ lf
  ++ "├─ Available: " ++ availStyle st (formatSize (Available di)) ++ lf
  ++ "├─ Usage: " ++ percentStyle st (itoa (UsePercent di) ++ "%") ++ lf
  ++ "├─ Mounted on: " ++ mountStyle st (MountPoint di) ++ lf
  ++ "└─ [" ++ usedStyle st (replicate (Z.to_nat usedCount) "█")
  ++ availStyle st (replicate (Z.to_nat availCount) "░") ++ "]" ++ lf ++ lf.

(** ** Checking a predicate on a range of integers *)

Fixpoint forallFrom (n : nat) (lo : Z) (f : Z -> bool) : bool :=
  match n with
  | O => true
  | S n' => f lo && forallFrom n' (lo + 1) f
  end.

(** ** Reading decimal digits back *)

(** The number a string of decimal digits denotes. *)
Fixpoint decVal (s : string) : Z :=
  match s with
  | EmptyString => 0
  | String c s' =>
      (byteVal c - 48) * 10 ^ Z.of_nat (String.length s') + decVal s'
  end.

Fixpoint allDigits (s : string) : bool :=
  match s with
  | EmptyString => true
  | String c s' => (48 <=? byteVal c) && (byteVal c <=? 57) && allDigits s'
  end.

(** ** The floating-point operations of the library's IEEE 754 model

    [SpecFloat] of the Rocq library specifies binary64 arithmetic (53 bits
    of precision, exponents up to 1024).  The operations above are compared
    with it on ranges of inputs. *)

Definition sfOfInt (z : Z) : SpecFloat.spec_float :=
  SpecFloat.binary_normalize 53 1024 z 0 false.

Definition sameValue (x : float64) (y : SpecFloat.spec_float) : bool :=
  match y with
  | SpecFloat.S754_zero _ => mant x =? 0
  | SpecFloat.S754_finite sign m e =>
      let lo := Z.min e (expo x) in
      mant x * 2 ^ (expo x - lo)
      =? (if sign then Z.neg m else Z.pos m) * 2 ^ (e - lo)
  | _ => false
  end.

Definition agreeBar (p : Z) : bool :=
  sameValue
    (fmul (fdiv (float64_of_int p) (mkFloat 100 0)) (float64_of_int barWidth))
    (SpecFloat.SFmul 53 1024
       (SpecFloat.SFdiv 53 1024 (sfOfInt p) (sfOfInt 100))
       (sfOfInt barWidth)).

Definition agreeDiv (b t : Z) : bool :=
  sameValue (fdiv (float64_of_int b) (float64_of_int t))
            (SpecFloat.SFdiv 53 1024 (sfOfInt b) (sfOfInt t)).

Definition agreeSizes (i : Z) : bool :=
  agreeDiv (KB + i) KB && agreeDiv (MB + 1021 * i) MB
  && agreeDiv (GB + 1048573 * i) GB && agreeDiv (TB + 1073741827 * i) TB
  && agreeDiv (2 ^ 53 + i) TB && agreeDiv (2 ^ 54 + i) TB
  && agreeDiv (2 ^ 60 + 127 * i) TB && agreeDiv (maxInt64 - i) TB.

(** ** The rest of the program: [Init], [Update], [getDiskInfoCmd] *)

(** A message of the event loop, by the cases of the type switch of
    [Update]: a key press (held as the text [msg.String()] gives), the
    records, an error (held as its message), anything else. *)
Inductive Msg : Type :=
| KeyMsg (key : string)
| DiskInfosMsg (infos : list DiskInfo)
| ErrorMsg (e : string)
| OtherMsg.

(** A command returned to the event loop: none ([nil]), [tea.Quit], or the
    program's own [getDiskInfoCmd]. *)
Inductive Cmd : Type :=
| CmdNone
| CmdQuit
| CmdGetDiskInfo.

Definition Init (m : Model) : Cmd := CmdGetDiskInfo.

Definition Update (m : Model) (msg : Msg) : Model * Cmd :=
  match msg with
  | KeyMsg key =>
      if String.eqb key "q" || String.eqb key "ctrl+c" || String.eqb key "esc"
      then (m, CmdQuit)
      else (m, CmdNone)
  | DiskInfosMsg infos => (mkModel infos None, CmdQuit)
  | ErrorMsg e => (mkModel (diskInfos m) (Some e), CmdQuit)
  | OtherMsg => (m, CmdNone)
  end.

(** [getDiskInfoCmd], given what [cmd.Output()] of [df -k] returned: the
    bytes of the standard output and the error, if any. *)
Definition getDiskInfoCmd (output : string) (failure : option string) : Msg :=
  match failure with
  | Some e => ErrorMsg e
  | None => DiskInfosMsg (parseDfOutput output)
  end.

(** The messages [Update] answers without touching the model. *)
Definition passive (msg : Msg) : bool :=
  match msg with
  | KeyMsg _ | OtherMsg => true
  | DiskInfosMsg _ | ErrorMsg _ => false
  end.

(** The model after a sequence of messages. *)
Definition afterMsgs (m : Model) (msgs : list Msg) : Model :=
  fold_left (fun m' msg => fst (Update m' msg)) msgs m.

(** ** Predicates on strings used in the statements *)

Fixpoint containsByte (c : ascii) (s : string) : bool :=
  match s with
  | EmptyString => false
  | String d s' => Ascii.eqb d c || containsByte c s'
  end.

(** The last byte exists and is not matched by [\s]. *)
Fixpoint endsNonSpace (s : string) : bool :=
  match s with
  | EmptyString => false
  | String c EmptyString => negb (reSpace c)
  | String _ s' => endsNonSpace s'
  end.

Definition nonEmpty (s : string) : bool :=
  match s with
  | EmptyString => false
  | String _ _ => true
  end.

(** The percentages for which both cell counts of the bar are from 0 to
    30. *)
Definition barFits (p : Z) : bool := (-3 <=? p) && (p <=? 103).

(** * Properties *)

(** ** The library calls on small inputs *)

Example Split_lines :
  Split ("a" ++ String nl ("b" ++ String nl EmptyString)) nl
  = ["a"; "b"; EmptyString]
  /\ Split EmptyString nl = [EmptyString].
Proof. split; reflexivity. Qed.

Example TrimSpace_ascii :
  TrimSpace (String (byteOf 9) "  /dev/sda1  1 2 " ++ String (byteOf 13) " ")
  = "/dev/sda1  1 2".
Proof. vm_compute. reflexivity. Qed.

(** A no-break space (U+00A0, bytes C2 A0) and an ideographic space
    (U+3000, bytes E3 80 80) are trimmed; a lone continuation byte is
    not. *)
Example TrimSpace_unicode :
  TrimSpace (String (byteOf 194) (String (byteOf 160) "x")
             ++ String (byteOf 227) (String (byteOf 128)
                                       (String (byteOf 128) EmptyString)))
  = "x"
  /\ TrimSpace (String (byteOf 160) "x") = String (byteOf 160) "x".
Proof. vm_compute. split; reflexivity. Qed.

(** Runs of blanks and tabs separate tokens; a vertical tab does not. *)
Example splitDfLine_runs :
  splitDfLine ("a  b" ++ String (byteOf 9) " c") = ["a"; "b"; "c"]
  /\ splitDfLine ("a" ++ String (byteOf 11) "b")
     = ["a" ++ String (byteOf 11) "b"]
  /\ splitDfLine " a " = [EmptyString; "a"; EmptyString].
Proof. vm_compute. repeat split; reflexivity. Qed.

Example ParseInt_samples :
  ParseInt "1048576" = (1048576, NoError)
  /\ ParseInt "+7" = (7, NoError)
  /\ ParseInt "-9223372036854775808" = (minInt64, NoError)
  /\ ParseInt "9223372036854775807" = (maxInt64, NoError)
  /\ ParseInt "9223372036854775808" = (maxInt64, ErrRange)
  /\ ParseInt "-9223372036854775809" = (minInt64, ErrRange)
  /\ ParseInt "99999999999999999999999x" = (maxInt64, ErrRange)
  /\ ParseInt "12x" = (0, ErrSyntax)
  /\ ParseInt "1_000" = (0, ErrSyntax)
  /\ ParseInt "-" = (0, ErrSyntax)
  /\ ParseInt EmptyString = (0, ErrSyntax).
Proof. vm_compute. repeat split; reflexivity. Qed.

Example Atoi_samples :
  Atoi "50" = (50, NoError)
  /\ Atoi "-5" = (-5, NoError)
  /\ Atoi "+" = (0, ErrSyntax)
  /\ Atoi "5o" = (0, ErrSyntax)
  /\ Atoi "99999999999999999999" = (maxInt64, ErrRange)
  /\ Atoi EmptyString = (0, ErrSyntax).
Proof. vm_compute. repeat split; reflexivity. Qed.

Example formatSize_samples :
  formatSize 1023 = "1023 B"
  /\ formatSize 1152 = "1.12 KB"
  /\ formatSize 1048575 = "1024.00 KB"
  /\ formatSize 536870912 = "512.00 MB"
  /\ formatSize 123456789012 = "114.98 GB"
  /\ formatSize maxInt64 = "8388608.00 TB".
Proof. vm_compute. repeat split; reflexivity. Qed.

(** ** Strings *)

Lemma append_empty_r (s : string) : s ++ EmptyString = s.
Proof. induction s as [|c s IH]; simpl; [reflexivity | now rewrite IH]. Qed.

Lemma append_assoc (s t u : string) : (s ++ t) ++ u = s ++ (t ++ u).
Proof. induction s as [|c s IH]; simpl; [reflexivity | now rewrite IH]. Qed.

Lemma length_append (s t : string) :
  String.length (s ++ t) = (String.length s + String.length t)%nat.
Proof. induction s as [|c s IH]; simpl; [reflexivity | now rewrite IH]. Qed.

Lemma rev_append (s t : string) : rev (s ++ t) = rev t ++ rev s.
Proof.
  induction s as [|c s IH]; simpl.
  - now rewrite append_empty_r.
  - now rewrite IH, append_assoc.
Qed.

Lemma substring_prefix (s t : string) :
  substring 0 (String.length s) (s ++ t) = s.
Proof.
  induction s as [|c s IH]; simpl.
  - destruct t; reflexivity.
  - now rewrite IH.
Qed.

Lemma TrimSuffix_last (s : string) (c : ascii) :
  TrimSuffix (s ++ String c EmptyString) "%" =
  if Ascii.eqb c "%" then s else s ++ String c EmptyString.
Proof.
  unfold TrimSuffix, HasSuffix.
  rewrite rev_append.
  change (HasPrefix (rev (String c EmptyString) ++ rev s) (rev "%"))
    with (Ascii.eqb c "%" && true).
  rewrite andb_true_r.
  destruct (Ascii.eqb c "%"); [|reflexivity].
  rewrite length_append. simpl String.length.
  replace (String.length s + 1 - 1)%nat with (String.length s) by lia.
  apply substring_prefix.
Qed.

(** ** The parser as a map over lines *)

Lemma parseLines_acc (lines : list string) (acc : list DiskInfo) :
  parseLines lines acc = (acc ++ parseLines lines [])%list.
Proof.
  revert acc. induction lines as [|raw rest IH]; intros acc; simpl.
  - now rewrite app_nil_r.
  - repeat match goal with
           | |- context [if ?b then _ else _] => destruct b
           end; try apply IH.
    rewrite IH. rewrite (IH [_]). now rewrite app_assoc.
Qed.

Lemma parseLines_cons (raw : string) (rest : list string) :
  parseLines (raw :: rest) [] = (lineRecords raw ++ parseLines rest [])%list.
Proof.
  unfold lineRecords. simpl.
  repeat match goal with
         | |- context [if ?b then _ else _] => destruct b
         end; try reflexivity.
  apply parseLines_acc.
Qed.

Lemma parseLines_flat_map (lines : list string) :
  parseLines lines [] = flat_map lineRecords lines.
Proof.
  induction lines as [|raw rest IH]; [reflexivity|].
  rewrite parseLines_cons, IH. reflexivity.
Qed.

Lemma parseDfOutput_flat_map (output : string) :
  parseDfOutput output = flat_map lineRecords (skipn 1 (Split output nl)).
Proof. apply parseLines_flat_map. Qed.

Lemma lineRecords_cases (raw : string) :
  lineRecords raw =
  if accepted raw then [recordOf (splitDfLine (TrimSpace raw))] else [].
Proof.
  unfold lineRecords, accepted, hasDfPrefix. cbn [parseLines].
  set (line := TrimSpace raw).
  generalize (HasPrefix line "/") (HasPrefix line "tmpfs")
             (HasPrefix line "devtmpfs").
  intros a b c.
  destruct (Nat.ltb_spec (List.length (splitDfLine line)) 6);
    destruct (Nat.leb_spec 6 (List.length (splitDfLine line))); try lia;
    destruct (String.eqb line EmptyString), a, b, c; reflexivity.
Qed.

Lemma parseDfOutput_split (output : string) (pre post : list string)
      (raw : string) :
  Split output nl = (pre ++ raw :: post)%list ->
  pre <> [] ->
  parseDfOutput output =
  (flat_map lineRecords (skipn 1 pre) ++ lineRecords raw
   ++ flat_map lineRecords post)%list.
Proof.
  intros Hs Hpre. rewrite parseDfOutput_flat_map, Hs.
  destruct pre as [|h pre']; [congruence|]. simpl.
  rewrite flat_map_app. reflexivity.
Qed.

Lemma parseDfOutput_In (output : string) (r : DiskInfo) :
  In r (parseDfOutput output) ->
  exists raw, In raw (skipn 1 (Split output nl))
              /\ accepted raw = true
              /\ r = recordOf (splitDfLine (TrimSpace raw)).
Proof.
  rewrite parseDfOutput_flat_map, in_flat_map.
  intros [raw [Hin Hr]]. exists raw. split; [exact Hin|].
  rewrite lineRecords_cases in Hr.
  destruct (accepted raw); simpl in Hr; [|contradiction].
  destruct Hr as [Hr|[]]. now split.
Qed.

Lemma hasDfPrefix_nonempty (s : string) :
  hasDfPrefix s = true -> String.eqb s EmptyString = false.
Proof. destruct s; [discriminate | reflexivity]. Qed.

Lemma accepted_intro (raw : string) :
  hasDfPrefix (TrimSpace raw) = true ->
  (6 <= List.length (splitDfLine (TrimSpace raw)))%nat ->
  accepted raw = true.
Proof.
  intros Hp Hn. unfold accepted.
  rewrite (hasDfPrefix_nonempty _ Hp), Hp.
  apply Nat.leb_le in Hn. rewrite Hn. reflexivity.
Qed.

Lemma accepted_false_iff (raw : string) :
  accepted raw = false <->
  (TrimSpace raw = EmptyString
   \/ hasDfPrefix (TrimSpace raw) = false
   \/ (List.length (splitDfLine (TrimSpace raw)) < 6)%nat).
Proof.
  unfold accepted. rewrite !andb_false_iff, negb_false_iff.
  rewrite String.eqb_eq, Nat.leb_gt. tauto.
Qed.

Lemma lineRecords_nil_iff (raw : string) :
  lineRecords raw = [] <-> accepted raw = false.
Proof.
  rewrite lineRecords_cases.
  destruct (accepted raw); split; intros H; congruence.
Qed.

Lemma skipn_1_app (A : Type) (pre post : list A) :
  pre <> [] -> skipn 1 (pre ++ post)%list = (skipn 1 pre ++ post)%list.
Proof. destruct pre; [congruence | reflexivity]. Qed.

(** ** [strconv]: what comes back with an error *)

Lemma ParseInt_syntax (s : string) :
  snd (ParseInt s) = ErrSyntax -> fst (ParseInt s) = 0.
Proof.
  unfold ParseInt. destruct s as [|c0 s1]; [reflexivity|].
  destruct (ParseUint _) as [un [| |]]; try reflexivity;
    repeat match goal with
           | |- context [if ?b then _ else _] => destruct b
           end; simpl; congruence.
Qed.

Lemma ParseInt_range (s : string) :
  snd (ParseInt s) = ErrRange ->
  fst (ParseInt s) = maxInt64 \/ fst (ParseInt s) = minInt64.
Proof.
  unfold ParseInt. destruct s as [|c0 s1]; [discriminate|].
  destruct (ParseUint _) as [un [| |]]; try discriminate;
    repeat match goal with
           | |- context [if ?b then _ else _] => destruct b
           end; simpl; try congruence; auto.
Qed.

Lemma atoiLoop_error (s : string) (n : Z) :
  snd (atoiLoop s n) = NoError
  \/ atoiLoop s n = (0, ErrSyntax).
Proof.
  revert n. induction s as [|c s IH]; intros n; simpl; [now left|].
  destruct (_ >? 9); [now right | apply IH].
Qed.

Lemma Atoi_syntax (s : string) :
  snd (Atoi s) = ErrSyntax -> fst (Atoi s) = 0.
Proof.
  unfold Atoi.
  destruct (_ && _); [|apply ParseInt_syntax].
  destruct s as [|c0 s1]; [reflexivity|].
  destruct (_ && _); [reflexivity|].
  destruct (atoiLoop_error (if isByte c0 45 || isByte c0 43 then s1
                            else String c0 s1) 0) as [H|H].
  - destruct (atoiLoop _ 0) as [n e]. simpl in H. subst e.
    simpl. discriminate.
  - rewrite H. reflexivity.
Qed.

Lemma Atoi_range (s : string) :
  snd (Atoi s) = ErrRange ->
  fst (Atoi s) = maxInt64 \/ fst (Atoi s) = minInt64.
Proof.
  unfold Atoi.
  destruct (_ && _); [|apply ParseInt_range].
  destruct s as [|c0 s1]; [discriminate|].
  destruct (_ && _); [discriminate|].
  destruct (atoiLoop_error (if isByte c0 45 || isByte c0 43 then s1
                            else String c0 s1) 0) as [H|H].
  - destruct (atoiLoop _ 0) as [n e]. simpl in H. subst e.
    simpl. discriminate.
  - rewrite H. discriminate.
Qed.

(** ** The parser on the report format *)

(** C1: the header line followed by the row
    [/dev/sda1 1048576 524288 524288 50% /] parses to exactly one record,
    with filesystem [/dev/sda1], 1073741824 size bytes, 536870912 used
    bytes, 536870912 available bytes, use percentage 50 and mount point
    [/]. *)
Theorem parseDfOutput_sample :
  parseDfOutput sampleReport =
  [ {| Filesystem := "/dev/sda1";
       Size := 1073741824;
       Used := 536870912;
       Available := 536870912;
       UsePercent := 50;
       MountPoint := "/" |} ].
Proof. vm_compute. reflexivity. Qed.

(** C5: a line after the header whose trimmed text is not empty and starts
    with none of [/], [tmpfs], [devtmpfs] contributes no record: the result
    is made of the records of the other lines.  The prefix test is the only
    filter on the kind of filesystem: a line yields no record exactly when
    its trimmed text is empty, fails the prefix test, or has fewer than six
    tokens. *)
Theorem prefix_filter_excludes (output : string) (pre post : list string)
        (raw : string) :
  Split output nl = (pre ++ raw :: post)%list ->
  pre <> [] ->
  TrimSpace raw <> EmptyString ->
  hasDfPrefix (TrimSpace raw) = false ->
  lineRecords raw = []
  /\ parseDfOutput output =
     (flat_map lineRecords (skipn 1 pre) ++ flat_map lineRecords post)%list
  /\ (forall other,
         lineRecords other = [] <->
         (TrimSpace other = EmptyString
          \/ hasDfPrefix (TrimSpace other) = false
          \/ (List.length (splitDfLine (TrimSpace other)) < 6)%nat)).
Proof.
  intros Hs Hpre _ Hp.
  assert (Hnil : lineRecords raw = []).
  { apply lineRecords_nil_iff, accepted_false_iff. auto. }
  split; [exact Hnil|]. split.
  - rewrite (parseDfOutput_split _ _ _ _ Hs Hpre), Hnil. reflexivity.
  - intros other. rewrite lineRecords_nil_iff. apply accepted_false_iff.
Qed.

Lemma prefix_filter_excludes_witness :
  lineRecords "overlay 41152736 8023436 31007196 21% /var/lib/docker" = []
  /\ parseDfOutput
       (report "overlay 41152736 8023436 31007196 21% /var/lib/docker") = [].
Proof.
  destruct (prefix_filter_excludes
              (report "overlay 41152736 8023436 31007196 21% /var/lib/docker")
              [header] []
              "overlay 41152736 8023436 31007196 21% /var/lib/docker")
    as [H1 [H2 _]].
  - vm_compute. reflexivity.
  - discriminate.
  - vm_compute. discriminate.
  - vm_compute. reflexivity.
  - split; [exact H1 | exact H2].
Defined.

(** C6: a line that passes the prefix test but splits into fewer than six
    tokens is dropped: it contributes no record, and the result, a plain
    list of records with no error and no count beside it, is the one the
    text gives without that line. *)
Theorem short_line_dropped (output : string) (pre post : list string)
        (raw : string) :
  Split output nl = (pre ++ raw :: post)%list ->
  pre <> [] ->
  hasDfPrefix (TrimSpace raw) = true ->
  (List.length (splitDfLine (TrimSpace raw)) < 6)%nat ->
  lineRecords raw = []
  /\ parseDfOutput output =
     (flat_map lineRecords (skipn 1 pre) ++ flat_map lineRecords post)%list
  /\ parseDfOutput output = parseLines (skipn 1 (pre ++ post)) [].
Proof.
  intros Hs Hpre Hp Hn.
  assert (Hnil : lineRecords raw = []).
  { apply lineRecords_nil_iff, accepted_false_iff. auto. }
  assert (Hout : parseDfOutput output =
                 (flat_map lineRecords (skipn 1 pre)
                  ++ flat_map lineRecords post)%list).
  { rewrite (parseDfOutput_split _ _ _ _ Hs Hpre), Hnil. reflexivity. }
  repeat split; [exact Hnil | exact Hout |].
  rewrite Hout, parseLines_flat_map, (skipn_1_app _ _ _ Hpre), flat_map_app.
  reflexivity.
Qed.

Lemma short_line_dropped_witness :
  lineRecords "/dev/sda1 1048576 524288 524288" = []
  /\ parseDfOutput (report "/dev/sda1 1048576 524288 524288") = [].
Proof.
  destruct (short_line_dropped
              (report "/dev/sda1 1048576 524288 524288")
              [header] [] "/dev/sda1 1048576 524288 524288")
    as [H1 [H2 _]].
  - vm_compute. reflexivity.
  - discriminate.
  - vm_compute. reflexivity.
  - vm_compute. lia.
  - split; [exact H1 | exact H2].
Defined.




(** C8, counterexample: the size token [-1] parses, and the record has a
    negative size. *)
Lemma negative_size_record :
  parseDfOutput (report negativeRow) =
  [ {| Filesystem := "/dev/sda1";
       Size := -1024;
       Used := 536870912;
       Available := 536870912;
       UsePercent := 50;
       MountPoint := "/" |} ]
  /\ ~ (forall r, In r (parseDfOutput (report negativeRow)) -> 0 <= Size r).
Proof.
  assert (E : parseDfOutput (report negativeRow) =
              [ {| Filesystem := "/dev/sda1";
                   Size := -1024;
                   Used := 536870912;
                   Available := 536870912;
                   UsePercent := 50;
                   MountPoint := "/" |} ])
    by (vm_compute; reflexivity).
  split; [exact E|].
  intros H. rewrite E in H.
  specialize (H _ (or_introl eq_refl)). simpl in H. lia.
Qed.

Lemma wrap64_small (z : Z) : minInt64 <= z <= maxInt64 -> wrap64 z = z.
Proof.
  unfold wrap64, minInt64, maxInt64. intros H.
  rewrite Z.mod_small; lia.
Qed.

(** C8, amended: when the size, used and available tokens of every accepted
    line parse to a value from 0 up to, not including, 2^53, every record
    has non-negative size, used and available bytes.  Nothing in the parser
    rejects a signed or larger token, and such a token can give a negative
    field. *)
Theorem sizes_nonnegative (output : string) (r : DiskInfo) :
  (forall raw i,
      In raw (skipn 1 (Split output nl)) ->
      accepted raw = true ->
      (1 <= i <= 3)%nat ->
      0 <= fst (ParseInt (field (splitDfLine (TrimSpace raw)) i)) < 2 ^ 53) ->
  In r (parseDfOutput output) ->
  0 <= Size r /\ 0 <= Used r /\ 0 <= Available r.
Proof.
  intros Htok Hin.
  destruct (parseDfOutput_In _ _ Hin) as [raw [Hraw [Hacc ->]]].
  unfold recordOf; simpl.
  pose proof (Htok raw 1%nat Hraw Hacc ltac:(lia)) as H1.
  pose proof (Htok raw 2%nat Hraw Hacc ltac:(lia)) as H2.
  pose proof (Htok raw 3%nat Hraw Hacc ltac:(lia)) as H3.
  rewrite !wrap64_small; unfold minInt64, maxInt64; lia.
Qed.

Lemma sizes_nonnegative_witness :
  0 <= Size (recordOf (splitDfLine "/dev/sda1 1048576 524288 524288 50% /"))
  /\ 0 <= Used
            (recordOf (splitDfLine "/dev/sda1 1048576 524288 524288 50% /"))
  /\ 0 <= Available
            (recordOf (splitDfLine "/dev/sda1 1048576 524288 524288 50% /")).
Proof.
  apply (sizes_nonnegative sampleReport);
    [|vm_compute; left; reflexivity].
  intros raw i Hin _ Hi.
  assert (Hraw : raw = "/dev/sda1 1048576 524288 524288 50% /").
  { vm_compute in Hin. destruct Hin as [E|[]]. symmetry. exact E. }
  subst raw.
  assert (Hcases : i = 1%nat \/ i = 2%nat \/ i = 3%nat) by lia.
  destruct Hcases as [->|[->| ->]];
    match goal with
    | |- 0 <= ?x < _ => let v := eval vm_compute in x in change x with v
    end; lia.
Defined.

(** ** The percent token *)

Lemma atoiLoop_percent_end (u : string) (n : Z) :
  atoiLoop (u ++ "%") n = (0, ErrSyntax).
Proof.
  revert n. induction u as [|c u IH]; intros n; [reflexivity|].
  cbn [append atoiLoop]. destruct (_ >? 9); [reflexivity | apply IH].
Qed.

Lemma parseUintLoop_percent_end (u : string) (n : Z) :
  parseUintLoop (u ++ "%") n = (0, ErrSyntax)
  \/ parseUintLoop (u ++ "%") n = (maxUint64, ErrRange).
Proof.
  revert n. induction u as [|c u IH]; intros n; [now left|].
  cbn [append parseUintLoop].
  destruct (_ && _); [|now left].
  destruct (_ >=? _); [now right|].
  destruct (_ >? _); [now right | apply IH].
Qed.

Lemma ParseUint_percent_end (u : string) :
  ParseUint (u ++ "%") = (0, ErrSyntax)
  \/ ParseUint (u ++ "%") = (maxUint64, ErrRange).
Proof.
  destruct u as [|c u]; [now left|].
  apply (parseUintLoop_percent_end (String c u) 0).
Qed.

Lemma ParseInt_percent_end (t : string) :
  ParseInt (t ++ "%") = (0, ErrSyntax)
  \/ ParseInt (t ++ "%") = (maxInt64, ErrRange)
  \/ ParseInt (t ++ "%") = (minInt64, ErrRange).
Proof.
  destruct t as [|c0 t']; [now left|].
  unfold ParseInt. cbn [append].
  assert (Hbody : forall b : bool,
             ParseUint (if b then t' ++ "%" else String c0 (t' ++ "%"))
             = (0, ErrSyntax)
             \/ ParseUint (if b then t' ++ "%" else String c0 (t' ++ "%"))
                = (maxUint64, ErrRange)).
  { intros [|]; [apply ParseUint_percent_end|].
    apply (ParseUint_percent_end (String c0 t')). }
  destruct (Hbody (isByte c0 43 || isByte c0 45)) as [E|E]; rewrite E.
  - now left.
  - right. destruct (isByte c0 45); [right | left]; reflexivity.
Qed.

(** A token that ends in [%] never parses as a number: [Atoi] reports a
    syntax error with 0, or, when the digits before the [%] overflow, a
    range error with the largest or smallest [int64]. *)
Lemma Atoi_percent_end (t : string) :
  (Atoi (t ++ "%") = (0, ErrSyntax)
   \/ Atoi (t ++ "%") = (maxInt64, ErrRange)
   \/ Atoi (t ++ "%") = (minInt64, ErrRange))
  /\ ((String.length t <= 17)%nat -> Atoi (t ++ "%") = (0, ErrSyntax)).
Proof.
  destruct t as [|c0 t'].
  - split; [left|intros _]; reflexivity.
  - assert (Hfast :
      (let signed := isByte c0 45 || isByte c0 43 in
       let body := if signed then t' ++ "%" else String c0 (t' ++ "%") in
       if signed && (Z.of_nat (String.length body) <? 1)
       then (0, ErrSyntax)
       else match atoiLoop body 0 with
            | (n, NoError) =>
                (if isByte c0 45 then wrap64 (- n) else n, NoError)
            | r => r
            end) = (0, ErrSyntax)).
    { cbv zeta. destruct (isByte c0 45 || isByte c0 43).
      - rewrite atoiLoop_percent_end. destruct (_ && _); reflexivity.
      - rewrite (atoiLoop_percent_end (String c0 t')). reflexivity. }
    unfold Atoi. cbn [append].
    change (String c0 (t' ++ "%")) with (String c0 t' ++ "%").
    rewrite length_append. cbn [String.length].
    destruct (Z.ltb_spec 0 (Z.of_nat (S (String.length t') + 1))); [|lia].
    cbn [andb].
    destruct (Z.ltb_spec (Z.of_nat (S (String.length t') + 1)) 19) as [Hl|Hl].
    + change (String c0 t' ++ "%") with (String c0 (t' ++ "%")).
      cbv beta iota. cbv zeta in Hfast. rewrite Hfast.
      split; [now left | reflexivity].
    + split; [apply (ParseInt_percent_end (String c0 t'))|].
      intros Hlen. lia.
Qed.

(** C10, counterexample: the percent token [99999999999999999999%%], cut to
    [99999999999999999999%], fails numeric parsing with a range error, and
    the percentage of the record is the largest [int64], not 0. *)
Lemma doubled_suffix_not_zero :
  Atoi "99999999999999999999%" = (maxInt64, ErrRange)
  /\ map UsePercent (parseDfOutput (report doubledOverflowRow)) = [maxInt64]
  /\ maxInt64 <> 0.
Proof. vm_compute. repeat split; try reflexivity. discriminate. Qed.

(** C10, amended: in the record of every accepted line the percentage is
    what [Atoi] gives for the percent token with one trailing [%] removed,
    and no more than one.  A token without the suffix is parsed as it is,
    and a token [t%] as [t]: the two give the same percentage, as [50] and
    [50%] give 50.  A token [t%%] is cut to [t%], which always fails
    numeric parsing: the percentage is 0 when the failure is a syntax
    error, which it is whenever [t] has at most 17 bytes, as for [50%%];
    it is the largest or smallest [int64] when the digits of [t] overflow
    and the failure is a range error. *)
Theorem percent_token_parsing (raw : string) :
  hasDfPrefix (TrimSpace raw) = true ->
  (6 <= List.length (splitDfLine (TrimSpace raw)))%nat ->
  let tok := field (splitDfLine (TrimSpace raw)) 4 in
  (exists r,
      lineRecords raw = [r]
      /\ UsePercent r = fst (Atoi (TrimSuffix tok "%"))
      /\ (HasSuffix tok "%" = false -> UsePercent r = fst (Atoi tok))
      /\ (forall t, tok = t ++ "%" -> UsePercent r = fst (Atoi t))
      /\ (forall t, tok = t ++ "%%" ->
             UsePercent r = fst (Atoi (t ++ "%"))
             /\ snd (Atoi (t ++ "%")) <> NoError
             /\ (snd (Atoi (t ++ "%")) = ErrSyntax -> UsePercent r = 0)
             /\ ((String.length t <= 17)%nat -> UsePercent r = 0)
             /\ (snd (Atoi (t ++ "%")) = ErrRange ->
                 UsePercent r = maxInt64 \/ UsePercent r = minInt64)))
  /\ map UsePercent
         (parseDfOutput (report "/dev/sda1 1048576 524288 524288 50 /")) = [50]
  /\ map UsePercent
         (parseDfOutput (report "/dev/sda1 1048576 524288 524288 50% /")) = [50]
  /\ map UsePercent
         (parseDfOutput (report "/dev/sda1 1048576 524288 524288 50%% /")) = [0].
Proof.
  intros Hp Hn tok.
  split; [|repeat split; vm_compute; reflexivity].
  exists (recordOf (splitDfLine (TrimSpace raw))). split.
  { rewrite lineRecords_cases, (accepted_intro _ Hp Hn). reflexivity. }
  unfold recordOf. cbn [UsePercent]. fold tok.
  split; [reflexivity|]. split; [|split].
  - intros Hs. unfold TrimSuffix. rewrite Hs. reflexivity.
  - intros t ->. rewrite (TrimSuffix_last t "%").
    change (Ascii.eqb "%" "%") with true. reflexivity.
  - intros t ->.
    change (t ++ "%%") with (t ++ ("%" ++ "%")).
    rewrite <- append_assoc, (TrimSuffix_last (t ++ "%") "%").
    change (Ascii.eqb "%" "%") with true. cbv iota.
    destruct (Atoi_percent_end t) as [Hcases Hshort].
    split; [reflexivity|]. split; [|split; [|split]].
    + destruct Hcases as [E|[E|E]]; rewrite E; discriminate.
    + apply Atoi_syntax.
    + intros Hlen. rewrite (Hshort Hlen). reflexivity.
    + apply Atoi_range.
Qed.

Lemma percent_token_parsing_witness :
  exists r,
    lineRecords "/dev/sda1 1048576 524288 524288 50%% /" = [r]
    /\ UsePercent r = 0.
Proof.
  destruct (percent_token_parsing "/dev/sda1 1048576 524288 524288 50%% /")
    as [[r [Hr [_ [_ [_ H]]]]] _].
  - vm_compute. reflexivity.
  - vm_compute. lia.
  - exists r. split; [exact Hr|].
    destruct (H "50") as [_ [_ [_ [Hz _]]]].
    + vm_compute. reflexivity.
    + apply Hz. simpl. lia.
Defined.

(** ** Floating point: division by a power of two is exact *)

Lemma bitLen_pos (m : Z) : 0 < m -> bitLen m = Z.log2 m + 1.
Proof.
  intros H. unfold bitLen.
  destruct (Z.eqb_spec m 0); [lia|]. now rewrite Z.abs_eq by lia.
Qed.

Lemma bitLen_bounds (m : Z) :
  0 < m -> 2 ^ (bitLen m - 1) <= m < 2 ^ bitLen m.
Proof.
  intros H. rewrite (bitLen_pos m H).
  replace (Z.log2 m + 1 - 1) with (Z.log2 m) by lia.
  replace (Z.log2 m + 1) with (Z.succ (Z.log2 m)) by lia.
  apply Z.log2_spec. exact H.
Qed.

Lemma bitLen_shift (m j : Z) :
  0 < m -> 0 <= j -> bitLen (m * 2 ^ j) = bitLen m + j.
Proof.
  intros Hm Hj.
  assert (0 < 2 ^ j) by (apply Z.pow_pos_nonneg; lia).
  rewrite !bitLen_pos by nia.
  rewrite Z.log2_mul_pow2 by lia. lia.
Qed.

Lemma bitLen_pow2 (n : Z) : 0 <= n -> bitLen (2 ^ n) = n + 1.
Proof.
  intros Hn. replace (2 ^ n) with (1 * 2 ^ n) by lia.
  rewrite bitLen_shift by lia. change (bitLen 1) with 1. lia.
Qed.

Lemma bitLen_le (m n : Z) : 0 < m -> 0 <= n -> m < 2 ^ n -> bitLen m <= n.
Proof.
  intros Hm Hn Hlt. rewrite bitLen_pos by lia.
  apply Z.log2_lt_pow2 in Hlt; lia.
Qed.

Lemma bitLen_ge (m n : Z) : 0 < m -> 0 <= n -> 2 ^ n <= m -> n < bitLen m.
Proof.
  intros Hm Hn Hle. rewrite bitLen_pos by lia.
  apply Z.log2_le_pow2 in Hle; lia.
Qed.

Lemma roundHalfEven_exact (num den : Z) :
  0 < den -> num mod den = 0 -> roundHalfEven num den = num / den.
Proof.
  intros Hd Hr. unfold roundHalfEven. rewrite Hr.
  destruct (Z.gtb_spec (2 * 0) den); [lia|].
  destruct (Z.eqb_spec (2 * 0) den); [lia|]. reflexivity.
Qed.

Lemma roundHalfEven_scale (num den c : Z) :
  0 < den -> 0 < c ->
  roundHalfEven (num * c) (den * c) = roundHalfEven num den.
Proof.
  intros Hd Hc. unfold roundHalfEven.
  rewrite Z.div_mul_cancel_r by lia.
  rewrite Z.mul_mod_distr_r by lia.
  pose proof (Z.mod_pos_bound num den Hd) as Hr.
  set (r := num mod den) in *.
  replace (2 * (r * c) >? den * c) with (2 * r >? den).
  2:{ destruct (Z.gtb_spec (2 * r) den), (Z.gtb_spec (2 * (r * c)) (den * c));
        try reflexivity; nia. }
  replace (2 * (r * c) =? den * c) with (2 * r =? den).
  2:{ destruct (Z.eqb_spec (2 * r) den), (Z.eqb_spec (2 * (r * c)) (den * c));
        try reflexivity; nia. }
  reflexivity.
Qed.

Lemma roundHalfEven_bounds (num den : Z) :
  0 <= num -> 0 < den ->
  num / den <= roundHalfEven num den <= num / den + 1
  /\ 2 * Z.abs (roundHalfEven num den * den - num) <= den.
Proof.
  intros Hn Hd. unfold roundHalfEven.
  pose proof (Z.mod_pos_bound num den Hd) as Hr.
  pose proof (Z.div_mod num den ltac:(lia)) as Hdm.
  set (q := num / den) in *. set (r := num mod den) in *.
  assert (Hup : (q + 1) * den - num = den - r) by lia.
  assert (Hdown : q * den - num = - r) by lia.
  destruct (Z.gtb_spec (2 * r) den); cbn [orb andb].
  - rewrite Hup. split; lia.
  - destruct (Z.eqb_spec (2 * r) den); cbn [orb andb].
    + destruct (Z.odd q); [rewrite Hup | rewrite Hdown]; split; lia.
    + rewrite Hdown. split; lia.
Qed.

Lemma pow2_split (a b : Z) : 0 <= a -> 0 <= b -> 2 ^ (a + b) = 2 ^ a * 2 ^ b.
Proof. intros. apply Z.pow_add_r; assumption. Qed.

Lemma pow2_pos (a : Z) : 0 <= a -> 0 < 2 ^ a.
Proof. intros. apply Z.pow_pos_nonneg; lia. Qed.

Lemma fdiv_pow2 (mx ex n M : Z) :
  0 < mx -> bitLen mx <= 54 -> 0 <= n ->
  mx * 2 ^ (57 - bitLen mx) = M * 16 ->
  fdiv (mkFloat mx ex) (mkFloat (2 ^ n) 0) =
  mkFloat M (ex - 53 - n + bitLen mx).
Proof.
  intros Hm HL Hn HM.
  assert (HL1 : 1 <= bitLen mx).
  { rewrite bitLen_pos by lia. pose proof (Z.log2_nonneg mx). lia. }
  pose proof (pow2_pos n Hn) as Hp.
  unfold fdiv. cbn [mant expo].
  rewrite (Z.abs_eq mx), (Z.abs_eq (2 ^ n)) by lia.
  rewrite bitLen_pow2 by lia.
  set (L := bitLen mx) in *.
  rewrite Z.max_r by lia.
  set (k := 55 + (n + 1) - L).
  assert (Hk : 2 ^ k = 2 ^ (k - n) * 2 ^ n).
  { rewrite <- pow2_split by lia. f_equal. lia. }
  rewrite Hk, Z.mul_assoc, Z.div_mul, Z.mod_mul by lia.
  cbn [Z.eqb].
  rewrite !Z.sgn_pos by lia.
  assert (Hm1 : 1 * 1 * (2 * (mx * 2 ^ (k - n)) + 0) = M * 16).
  { rewrite <- HM. replace (57 - L) with (1 + (k - n)) by lia.
    rewrite pow2_split by lia. change (2 ^ 1) with 2. lia. }
  rewrite Hm1.
  assert (HbM : bitLen (M * 16) = 57).
  { rewrite <- HM, bitLen_shift by lia. fold L. lia. }
  unfold roundFloat. rewrite HbM.
  destruct (Z.leb_spec 57 53); [lia|].
  assert (HM0 : 0 < M).
  { pose proof (pow2_pos (57 - L) ltac:(lia)). nia. }
  rewrite Z.sgn_pos, Z.abs_eq by lia.
  change (2 ^ (57 - 53)) with 16.
  rewrite roundHalfEven_exact by (try lia; apply Z.mod_mul; lia).
  rewrite Z.div_mul by lia.
  f_equal; lia.
Qed.

Lemma formatFloat2_div_pow2 (mx ex n : Z) :
  0 < mx -> (bitLen mx <= 53 \/ mx = 2 ^ 53) ->
  0 <= ex <= n -> ex + bitLen mx < n + 53 ->
  formatFloat2 (fdiv (mkFloat mx ex) (mkFloat (2 ^ n) 0)) =
  twoDecimals (roundHalfEven (100 * (mx * 2 ^ ex)) (2 ^ n)).
Proof.
  intros Hm Hnorm He Hlt.
  assert (HL1 : 1 <= bitLen mx).
  { rewrite bitLen_pos by lia. pose proof (Z.log2_nonneg mx). lia. }
  assert (HM : exists M, mx * 2 ^ (57 - bitLen mx) = M * 16
                         /\ bitLen mx <= 54).
  { destruct Hnorm as [HL| ->].
    - exists (mx * 2 ^ (53 - bitLen mx)). split; [|lia].
      replace (57 - bitLen mx) with ((53 - bitLen mx) + 4) by lia.
      rewrite pow2_split by lia. change (2 ^ 4) with 16. lia.
    - exists (2 ^ 52). rewrite bitLen_pow2 by lia. split; [|lia].
      vm_compute. reflexivity. }
  destruct HM as [M [HM HL]].
  rewrite (fdiv_pow2 mx ex n M Hm HL ltac:(lia) HM).
  set (L := bitLen mx) in *.
  assert (HM0 : 0 < M).
  { pose proof (pow2_pos (57 - L) ltac:(lia)). nia. }
  unfold formatFloat2. cbn [mant expo].
  destruct (Z.geb_spec (ex - 53 - n + L) 0); [lia|].
  destruct (Z.ltb_spec M 0); [lia|].
  rewrite Z.abs_eq by lia.
  cbn [append]. f_equal.
  rewrite <- (roundHalfEven_scale (M * 100) _ 16)
    by (try lia; apply pow2_pos; lia).
  replace (M * 100 * 16) with ((100 * mx) * 2 ^ (57 - L)) by lia.
  replace (2 ^ (- (ex - 53 - n + L)) * 16) with (2 ^ (n - ex) * 2 ^ (57 - L)).
  2:{ change 16 with (2 ^ 4). rewrite <- !pow2_split by lia. f_equal. lia. }
  rewrite roundHalfEven_scale by (apply pow2_pos; lia).
  replace (100 * (mx * 2 ^ ex)) with ((100 * mx) * 2 ^ ex) by lia.
  replace (2 ^ n) with (2 ^ (n - ex) * 2 ^ ex).
  2:{ rewrite <- pow2_split by lia. f_equal. lia. }
  rewrite roundHalfEven_scale by (apply pow2_pos; lia).
  reflexivity.
Qed.

(** ** Floating point: bounds on the rounded results *)

Lemma roundFloat_upper (m e o : Z) :
  0 < m -> 0 <= e + o ->
  0 < mant (roundFloat m e)
  /\ e <= expo (roundFloat m e)
  /\ mant (roundFloat m e) * 2 ^ (expo (roundFloat m e) + o) * 2 ^ 52
     <= m * 2 ^ (e + o) * (2 ^ 52 + 1).
Proof.
  intros Hm Heo. unfold roundFloat.
  pose proof (pow2_pos (e + o) Heo) as HP.
  destruct (Z.leb_spec (bitLen m) 53) as [Hs|Hs]; cbn [mant expo].
  - split; [lia|]. split; [lia|]. nia.
  - set (s := bitLen m - 53) in *.
    rewrite Z.sgn_pos, Z.abs_eq by lia.
    pose proof (pow2_pos s ltac:(lia)) as Hps.
    pose proof (roundHalfEven_bounds m (2 ^ s) ltac:(lia) Hps) as [[Hlo Hhi] _].
    pose proof (bitLen_bounds m Hm) as [Hb _].
    replace (bitLen m - 1) with (s + 52) in Hb by (unfold s; lia).
    rewrite pow2_split in Hb by lia.
    assert (Hq : 2 ^ 52 <= m / 2 ^ s).
    { apply Z.div_le_lower_bound; lia. }
    pose proof (Z.mul_div_le m (2 ^ s) Hps) as Hmd.
    set (r := roundHalfEven m (2 ^ s)) in *.
    split; [lia|]. split; [lia|].
    replace (e + s + o) with (s + (e + o)) by lia.
    rewrite pow2_split by lia.
    assert (Hr : 1 * r * 2 ^ s * 2 ^ 52 <= m * (2 ^ 52 + 1)) by nia.
    nia.
Qed.

Lemma truncInt_upper (x : float64) (o : Z) :
  0 < mant x -> 0 <= o -> 0 <= expo x + o ->
  0 <= truncInt x /\ truncInt x * 2 ^ o <= mant x * 2 ^ (expo x + o).
Proof.
  intros Hm Ho Hxo. unfold truncInt.
  pose proof (pow2_pos o Ho) as HPo.
  destruct (Z.geb_spec (expo x) 0) as [He|He].
  - pose proof (pow2_pos (expo x) He).
    rewrite pow2_split by lia. split; nia.
  - pose proof (pow2_pos (- expo x) ltac:(lia)) as HP.
    rewrite Z.quot_div_nonneg by lia.
    pose proof (Z.mul_div_le (mant x) (2 ^ (- expo x)) HP) as Hmd.
    assert (H0 : 0 <= mant x / 2 ^ (- expo x)) by (apply Z.div_pos; lia).
    split; [exact H0|].
    replace o with (- expo x + (expo x + o)) at 1 by lia.
    rewrite pow2_split by lia.
    pose proof (pow2_pos (expo x + o) Hxo). nia.
Qed.

Lemma roundFloat_mant_le (m e : Z) :
  0 < m -> mant (roundFloat m e) <= 2 ^ 53.
Proof.
  intros Hm. unfold roundFloat.
  pose proof (bitLen_bounds m Hm) as [Hlo Hhi].
  destruct (Z.leb_spec (bitLen m) 53) as [Hs|Hs]; cbn [mant].
  - assert (2 ^ bitLen m <= 2 ^ 53) by (apply Z.pow_le_mono_r; lia). lia.
  - set (s := bitLen m - 53) in *.
    rewrite Z.sgn_pos, Z.abs_eq by lia.
    pose proof (pow2_pos s ltac:(lia)) as Hps.
    pose proof (roundHalfEven_bounds m (2 ^ s) ltac:(lia) Hps) as [[_ Hr] _].
    assert (Hq : m / 2 ^ s < 2 ^ 53).
    { apply Z.div_lt_upper_bound; [lia|].
      rewrite <- pow2_split by lia.
      replace (s + 53) with (bitLen m) by (unfold s; lia). exact Hhi. }
    lia.
Qed.

Lemma fdiv_100_upper (mx ex : Z) :
  0 < mx -> mx <= 2 ^ 53 -> 0 <= ex ->
  let y := fdiv (mkFloat mx ex) (mkFloat 100 0) in
  0 < mant y
  /\ 0 <= expo y + 63
  /\ mant y * 2 ^ (expo y + 63) * (2 ^ 52 * 100 * 2 ^ 55)
     <= mx * 2 ^ (ex + 63) * ((2 ^ 52 + 1) * (2 ^ 55 + 1)).
Proof.
  intros Hm Hle Hex y. subst y.
  assert (HL : 1 <= bitLen mx <= 54).
  { split.
    - rewrite bitLen_pos by lia. pose proof (Z.log2_nonneg mx). lia.
    - apply bitLen_le; lia. }
  unfold fdiv. cbn [mant expo].
  rewrite (Z.abs_eq mx) by lia.
  change (Z.abs 100) with 100. change (bitLen 100) with 7.
  rewrite Z.max_r by lia.
  set (k := 55 + 7 - bitLen mx).
  set (num := mx * 2 ^ k).
  assert (Hbn : bitLen num = 62).
  { unfold num. rewrite bitLen_shift by (unfold k; lia). unfold k. lia. }
  assert (Hnum0 : 0 < num).
  { unfold num. pose proof (pow2_pos k ltac:(unfold k; lia)). nia. }
  pose proof (bitLen_bounds num Hnum0) as [Hnlo Hnhi].
  rewrite Hbn in Hnlo, Hnhi.
  change (2 ^ (62 - 1)) with 2305843009213693952 in Hnlo.
  pose proof (Z.div_mod num 100 ltac:(lia)) as Hdm.
  pose proof (Z.mod_pos_bound num 100 ltac:(lia)) as Hmod.
  set (q := num / 100) in *.
  set (sticky := if num mod 100 =? 0 then 0 else 1).
  assert (Hst : 0 <= sticky <= 1).
  { unfold sticky. destruct (num mod 100 =? 0); lia. }
  rewrite Z.sgn_pos by lia. change (Z.sgn 100) with 1.
  set (m1 := 1 * 1 * (2 * q + sticky)).
  assert (Hm1 : 0 < m1) by (unfold m1; lia).
  assert (Hm1u : m1 * (50 * 2 ^ 55) <= num * (2 ^ 55 + 1)) by (unfold m1; lia).
  set (e1 := ex - 0 - k - 1).
  assert (He1 : 0 <= e1 + 63) by (unfold e1, k; lia).
  destruct (roundFloat_upper m1 e1 63 Hm1 He1) as [Hpos [Hexp Hval]].
  split; [exact Hpos|]. split; [lia|].
  pose proof (pow2_pos (e1 + 63) He1) as HP1.
  assert (HX : num * 2 ^ (e1 + 63) * 2 = mx * 2 ^ (ex + 63)).
  { unfold num. replace (ex + 63) with (k + (e1 + 63) + 1) by (unfold e1; lia).
    rewrite (pow2_split (k + (e1 + 63)) 1) by (unfold k; lia).
    rewrite (pow2_split k (e1 + 63)) by (unfold k; lia).
    change (2 ^ 1) with 2. lia. }
  assert (HS : m1 * 2 ^ (e1 + 63) * (50 * 2 ^ 55)
               <= num * 2 ^ (e1 + 63) * (2 ^ 55 + 1)) by nia.
  set (A := mant (roundFloat m1 e1) * 2 ^ (expo (roundFloat m1 e1) + 63)) in *.
  set (B := m1 * 2 ^ (e1 + 63)) in *.
  set (NP := num * 2 ^ (e1 + 63)) in *.
  rewrite <- HX. lia.
Qed.

Lemma usedChars_upper (p : Z) :
  0 < p <= 2 ^ 63 -> 0 <= usedChars p <= 2 ^ 62.
Proof.
  intros Hp. unfold usedChars, float64_of_int.
  destruct (roundFloat_upper p 0 63 ltac:(lia) ltac:(lia)) as [Hx0 [Hxe Hxv]].
  pose proof (roundFloat_mant_le p 0 ltac:(lia)) as Hxm.
  destruct (roundFloat p 0) as [mx ex]. cbn [mant expo] in *.
  destruct (fdiv_100_upper mx ex Hx0 Hxm Hxe) as [Hy0 [Hye Hyv]].
  destruct (fdiv (mkFloat mx ex) (mkFloat 100 0)) as [my ey].
  cbn [mant expo] in *.
  change (roundFloat barWidth 0) with (mkFloat 30 0).
  unfold fmul. cbn [mant expo]. rewrite Z.add_0_r.
  destruct (roundFloat_upper (my * 30) ey 63 ltac:(lia) Hye)
    as [Hz0 [Hze Hzv]].
  destruct (truncInt_upper (roundFloat (my * 30) ey) 63 Hz0 ltac:(lia)
                           ltac:(lia)) as [Ht0 Htv].
  split; [exact Ht0|].
  set (t := truncInt (roundFloat (my * 30) ey)) in *.
  set (Zs := mant (roundFloat (my * 30) ey)
             * 2 ^ (expo (roundFloat (my * 30) ey) + 63)) in *.
  set (Y := my * 2 ^ (ey + 63)) in *.
  set (X := mx * 2 ^ (ex + 63)) in *.
  replace (my * 30 * 2 ^ (ey + 63)) with (30 * Y) in Hzv by (unfold Y; lia).
  change (2 ^ (0 + 63)) with (2 ^ 63) in Hxv.
  lia.
Qed.

Lemma bitLen_opp (m : Z) : bitLen (- m) = bitLen m.
Proof.
  unfold bitLen. rewrite Z.abs_opp.
  destruct (Z.eqb_spec (- m) 0), (Z.eqb_spec m 0); try reflexivity; lia.
Qed.

Lemma roundFloat_opp (m e : Z) : roundFloat (- m) e = fneg (roundFloat m e).
Proof.
  unfold roundFloat, fneg. rewrite bitLen_opp, Z.abs_opp, Z.sgn_opp.
  destruct (bitLen m <=? 53); cbn [mant expo]; f_equal; lia.
Qed.

Lemma fdiv_opp (x y : float64) : fdiv (fneg x) y = fneg (fdiv x y).
Proof.
  unfold fdiv. cbn [fneg mant expo].
  rewrite Z.abs_opp, Z.sgn_opp, <- roundFloat_opp.
  f_equal. lia.
Qed.

Lemma fmul_opp (x y : float64) : fmul (fneg x) y = fneg (fmul x y).
Proof.
  unfold fmul. cbn [fneg mant expo]. rewrite <- roundFloat_opp.
  f_equal. lia.
Qed.

Lemma truncInt_opp (x : float64) : truncInt (fneg x) = - truncInt x.
Proof.
  unfold truncInt. cbn [fneg mant expo].
  destruct (Z.geb_spec (expo x) 0) as [He|He]; [lia|].
  apply Z.quot_opp_l.
  pose proof (pow2_pos (- expo x) ltac:(lia)). lia.
Qed.

(** The bar computation is odd: the cells of [- p] are the negated cells of
    [p]. *)
Lemma usedChars_opp (p : Z) : usedChars (- p) = - usedChars p.
Proof.
  unfold usedChars, float64_of_int.
  rewrite roundFloat_opp, fdiv_opp, fmul_opp, truncInt_opp. reflexivity.
Qed.

Lemma usedChars_int64 (p : Z) :
  inInt64 p -> - 2 ^ 62 <= usedChars p <= 2 ^ 62.
Proof.
  unfold inInt64, minInt64, maxInt64. intros Hp.
  destruct (Z.lt_trichotomy p 0) as [Hn|[->|Hpos]].
  - pose proof (usedChars_upper (- p) ltac:(lia)) as H.
    rewrite usedChars_opp in H. lia.
  - vm_compute. split; discriminate.
  - pose proof (usedChars_upper p ltac:(lia)). lia.
Qed.

(** ** The conversion of a size to [float64] *)

Lemma float64_of_int_small (b : Z) :
  0 <= b < 2 ^ 53 -> float64_of_int b = mkFloat b 0.
Proof.
  intros Hb. unfold float64_of_int, roundFloat.
  destruct (Z.eq_dec b 0) as [->|Hne]; [reflexivity|].
  pose proof (bitLen_le b 53 ltac:(lia) ltac:(lia) ltac:(lia)) as HL.
  destruct (Z.leb_spec (bitLen b) 53); [reflexivity | lia].
Qed.

Lemma float64_of_int_large (b : Z) :
  2 ^ 53 <= b < 2 ^ 63 ->
  exists m k,
    float64_of_int b = mkFloat m k
    /\ 1 <= k <= 10
    /\ 2 ^ 52 <= m <= 2 ^ 53
    /\ 2 * Z.abs (m * 2 ^ k - b) <= 2 ^ k.
Proof.
  intros Hb.
  assert (Hb0 : 0 < b) by lia.
  pose proof (bitLen_bounds b Hb0) as HB.
  pose proof (bitLen_ge b 53 Hb0 ltac:(lia) ltac:(lia)) as Hge.
  pose proof (bitLen_le b 63 Hb0 ltac:(lia) ltac:(lia)) as Hle.
  set (k := bitLen b - 53).
  exists (roundHalfEven b (2 ^ k)), k.
  assert (Hk : 1 <= k <= 10) by (unfold k; lia).
  pose proof (pow2_pos k ltac:(lia)) as Hpk.
  pose proof (roundHalfEven_bounds b (2 ^ k) ltac:(lia) Hpk) as [Hr Herr].
  assert (Hlo : 2 ^ 52 <= b / 2 ^ k).
  { apply Z.div_le_lower_bound; [lia|].
    rewrite <- pow2_split by lia.
    replace (k + 52) with (bitLen b - 1) by (unfold k; lia). lia. }
  assert (Hhi : b / 2 ^ k < 2 ^ 53).
  { apply Z.div_lt_upper_bound; [lia|].
    rewrite <- pow2_split by lia.
    replace (k + 53) with (bitLen b) by (unfold k; lia). lia. }
  split; [|split; [exact Hk | split; [lia | exact Herr]]].
  unfold float64_of_int, roundFloat.
  destruct (Z.leb_spec (bitLen b) 53); [lia|].
  fold k. rewrite Z.sgn_pos, Z.abs_eq by lia.
  f_equal. lia.
Qed.

Lemma float64_of_int_norm (b : Z) :
  0 < b < 2 ^ 63 ->
  exists m k,
    float64_of_int b = mkFloat m k
    /\ 0 < m /\ (bitLen m <= 53 \/ m = 2 ^ 53)
    /\ 0 <= k <= 10 /\ k + bitLen m <= 64
    /\ (b < 2 ^ 53 -> m = b /\ k = 0)
    /\ 2 * Z.abs (m * 2 ^ k - b) <= 1024.
Proof.
  intros Hb.
  destruct (Z.lt_ge_cases b (2 ^ 53)) as [Hs|Hl].
  - exists b, 0. rewrite float64_of_int_small by lia.
    pose proof (bitLen_le b 53 ltac:(lia) ltac:(lia) Hs).
    repeat split; try lia.
  - destruct (float64_of_int_large b ltac:(lia)) as [m [k [E [Hk [Hm Herr]]]]].
    exists m, k. split; [exact E|].
    assert (Hn : bitLen m <= 53 \/ m = 2 ^ 53).
    { destruct (Z.eq_dec m (2 ^ 53)) as [->|Hne]; [now right|].
      left. apply bitLen_le; lia. }
    assert (Hbl : bitLen m <= 54).
    { destruct Hn as [Hn| ->]; [lia|]. rewrite bitLen_pow2; lia. }
    assert (Hpk : 2 ^ k <= 2 ^ 10) by (apply Z.pow_le_mono_r; lia).
    repeat split; try lia.
Qed.

Lemma format_quotient (b n : Z) :
  0 < b < 2 ^ 63 -> 10 <= n <= 40 ->
  bitLen b < n + 43 ->
  formatFloat2 (fdiv (float64_of_int b) (mkFloat (2 ^ n) 0)) =
  twoDecimals (roundHalfEven (100 * intValue (float64_of_int b)) (2 ^ n)).
Proof.
  intros Hb Hn Hbits.
  destruct (float64_of_int_norm b Hb)
    as [m [k [E [Hm [Hnorm [Hk [Hsum [Hsmall _]]]]]]]].
  rewrite E. unfold intValue. cbn [mant expo].
  apply formatFloat2_div_pow2; try assumption; try lia.
  destruct (Z.lt_ge_cases b (2 ^ 53)) as [Hs|Hl].
  - destruct (Hsmall Hs) as [-> ->]. lia.
  - pose proof (bitLen_ge b 53 ltac:(lia) ltac:(lia) Hl). lia.
Qed.

(** ** [fmt]: the digits written denote the number *)

Lemma digit_value (d : Z) : 0 <= d <= 9 -> byteVal (digit d) = 48 + d.
Proof.
  intros H.
  assert (C : d = 0 \/ d = 1 \/ d = 2 \/ d = 3 \/ d = 4 \/ d = 5 \/ d = 6
              \/ d = 7 \/ d = 8 \/ d = 9) by lia.
  repeat (destruct C as [->|C]; [reflexivity|]). subst d. reflexivity.
Qed.

Lemma utoaLoop_value (fuel : nat) (n : Z) (acc : string) :
  0 <= n < 10 ^ Z.of_nat fuel ->
  decVal (utoaLoop fuel n acc)
  = n * 10 ^ Z.of_nat (String.length acc) + decVal acc
  /\ allDigits (utoaLoop fuel n acc) = allDigits acc.
Proof.
  revert n acc. induction fuel as [|fuel IH]; intros n acc Hn.
  - change (10 ^ Z.of_nat 0) with 1 in Hn.
    assert (n = 0) by lia. subst n. simpl. split; [lia | reflexivity].
  - cbn [utoaLoop].
    pose proof (Z.mod_pos_bound n 10 ltac:(lia)) as Hd.
    pose proof (Z.div_mod n 10 ltac:(lia)) as Hdm.
    pose proof (digit_value (n mod 10) ltac:(lia)) as Hv.
    assert (Hacc : decVal (String (digit (n mod 10)) acc)
                   = (n mod 10) * 10 ^ Z.of_nat (String.length acc)
                     + decVal acc).
    { cbn [decVal]. rewrite Hv. f_equal. f_equal. lia. }
    assert (Hall : allDigits (String (digit (n mod 10)) acc) = allDigits acc).
    { cbn [allDigits]. rewrite Hv.
      destruct (Z.leb_spec 48 (48 + n mod 10)); [|lia].
      destruct (Z.leb_spec (48 + n mod 10) 57); [|lia]. reflexivity. }
    destruct (Z.ltb_spec n 10) as [Hlt|Hge].
    + rewrite Hacc, Hall. rewrite Z.mod_small by lia. split; reflexivity.
    + assert (Hq : 0 <= n / 10 < 10 ^ Z.of_nat fuel).
      { split; [apply Z.div_pos; lia|].
        apply Z.div_lt_upper_bound; [lia|].
        replace (Z.of_nat (S fuel)) with (1 + Z.of_nat fuel) in Hn by lia.
        rewrite Z.pow_add_r in Hn by lia. change (10 ^ 1) with 10 in Hn.
        lia. }
      destruct (IH (n / 10) (String (digit (n mod 10)) acc) Hq) as [H1 H2].
      rewrite H1, H2, Hacc, Hall. split; [|reflexivity].
      cbn [String.length].
      replace (Z.of_nat (S (String.length acc)))
        with (1 + Z.of_nat (String.length acc)) by lia.
      rewrite Z.pow_add_r by lia. change (10 ^ 1) with 10.
      set (P := 10 ^ Z.of_nat (String.length acc)).
      set (q := n / 10) in *. set (r := n mod 10) in *.
      replace (n * P) with ((10 * q + r) * P) by (rewrite <- Hdm; reflexivity).
      ring.
Qed.

(** [utoa] writes decimal digits only, and they denote the number. *)
Lemma utoa_value (n : Z) :
  0 <= n -> decVal (utoa n) = n /\ allDigits (utoa n) = true.
Proof.
  intros Hn. unfold utoa.
  assert (Hf : 0 <= n < 10 ^ Z.of_nat (S (Z.to_nat (Z.log2 n)))).
  { split; [exact Hn|].
    pose proof (Z.log2_nonneg n) as Hl.
    replace (Z.of_nat (S (Z.to_nat (Z.log2 n)))) with (Z.log2 n + 1) by lia.
    destruct (Z.eq_dec n 0) as [->|Hne].
    - vm_compute. reflexivity.
    - pose proof (Z.log2_spec n ltac:(lia)) as [_ Hs].
      replace (Z.succ (Z.log2 n)) with (Z.log2 n + 1) in Hs by lia.
      assert (2 ^ (Z.log2 n + 1) <= 10 ^ (Z.log2 n + 1))
        by (apply Z.pow_le_mono_l; lia).
      lia. }
  destruct (utoaLoop_value _ n EmptyString Hf) as [H1 H2].
  rewrite H1, H2. simpl. split; [lia | reflexivity].
Qed.

(** ** [formatSize] *)

(** C9: a negative size is below every unit threshold and is written as the
    bare integer, a minus sign and the digits of its magnitude, followed by
    [ B]; no division and no decimals.  [formatSize (-1)] is ["-1 B"]. *)
Theorem formatSize_negative (n : Z) :
  minInt64 <= n < 0 ->
  formatSize n = "-" ++ utoa (- n) ++ " B"
  /\ formatSize n = itoa n ++ " B"
  /\ formatSize (-1) = "-1 B".
Proof.
  intros [_ Hneg].
  assert (E : formatSize n = itoa n ++ " B").
  { unfold formatSize, TB, GB, MB, KB.
    repeat match goal with
           | |- context [?a >=? ?b] =>
               destruct (Z.geb_spec a b); [lia|]
           end.
    reflexivity. }
  split; [|split; [exact E | reflexivity]].
  rewrite E. unfold itoa.
  destruct (Z.ltb_spec n 0); [|lia].
  rewrite append_assoc. reflexivity.
Qed.

Lemma formatSize_negative_witness :
  formatSize (-1536) = "-1536 B".
Proof.
  destruct (formatSize_negative (-1536)) as [H _].
  - unfold minInt64. lia.
  - exact H.
Defined.

(** C2: for a size from 0 to the largest [int64], [formatSize] picks the
    largest unit whose threshold (1024, 1024^2, 1024^3, 1024^4) the size
    reaches.  Below 1024 the result is the bare integer followed by [ B].
    From a threshold on it is the quotient of the size, as converted to
    [float64], by the threshold, written with exactly two decimals
    (nearest hundredth, ties to even) and followed by the unit.  The
    conversion is exact below 2^53 and off by at most 512 above.  Zero
    gives ["0 B"], 1024 ["1.00 KB"], 1048576 ["1.00 MB"] and 1099511627776
    ["1.00 TB"]. *)
Theorem formatSize_units (b : Z) :
  0 <= b <= maxInt64 ->
  let v := intValue (float64_of_int b) in
  (b < KB -> formatSize b = utoa b ++ " B")
  /\ (KB <= b < MB ->
      formatSize b = twoDecimals (roundHalfEven (100 * v) KB) ++ " KB")
  /\ (MB <= b < GB ->
      formatSize b = twoDecimals (roundHalfEven (100 * v) MB) ++ " MB")
  /\ (GB <= b < TB ->
      formatSize b = twoDecimals (roundHalfEven (100 * v) GB) ++ " GB")
  /\ (TB <= b ->
      formatSize b = twoDecimals (roundHalfEven (100 * v) TB) ++ " TB")
  /\ (b < 2 ^ 53 -> v = b)
  /\ 2 * Z.abs (v - b) <= 1024
  /\ formatSize 0 = "0 B"
  /\ formatSize 1024 = "1.00 KB"
  /\ formatSize 1048576 = "1.00 MB"
  /\ formatSize 1099511627776 = "1.00 TB".
Proof.
  intros Hb v.
  assert (Hmax : b < 2 ^ 63) by (unfold maxInt64 in Hb; lia).
  assert (HKB : KB = 2 ^ 10) by reflexivity.
  assert (HMB : MB = 2 ^ 20) by reflexivity.
  assert (HGB : GB = 2 ^ 30) by reflexivity.
  assert (HTB : TB = 2 ^ 40) by reflexivity.
  assert (Hbits : forall n, 0 < b -> 0 <= n -> b < 2 ^ n -> bitLen b <= n).
  { intros n H0 Hn Hlt. apply bitLen_le; assumption. }
  assert (Hbig : 0 < b -> bitLen b <= 63).
  { intros H0. apply bitLen_le; lia. }
  assert (Hex : formatSize 0 = "0 B"
                /\ formatSize 1024 = "1.00 KB"
                /\ formatSize 1048576 = "1.00 MB"
                /\ formatSize 1099511627776 = "1.00 TB")
    by (vm_compute; repeat split; reflexivity).
  split; [|split; [|split; [|split; [|split; [|split; [|split;
    [|exact Hex]]]]]]].
  - intros Hlt. unfold formatSize.
    repeat match goal with
           | |- context [?a >=? ?c] => destruct (Z.geb_spec a c); [lia|]
           end.
    unfold itoa. destruct (Z.ltb_spec b 0); [lia | reflexivity].
  - intros [Hlo Hhi]. unfold formatSize.
    repeat match goal with
           | |- context [if ?a >=? ?c then _ else _] =>
               destruct (Z.geb_spec a c); [lia|]
           end.
    destruct (Z.geb_spec b KB); [|lia].
    change (float64_of_int KB) with (mkFloat (2 ^ 10) 0).
    rewrite format_quotient; try lia.
    + rewrite HKB. reflexivity.
    + pose proof (Hbits 20 ltac:(lia) ltac:(lia) ltac:(lia)). lia.
  - intros [Hlo Hhi]. unfold formatSize.
    repeat match goal with
           | |- context [if ?a >=? ?c then _ else _] =>
               destruct (Z.geb_spec a c); [lia|]
           end.
    destruct (Z.geb_spec b MB); [|lia].
    change (float64_of_int MB) with (mkFloat (2 ^ 20) 0).
    rewrite format_quotient; try lia.
    + rewrite HMB. reflexivity.
    + pose proof (Hbits 30 ltac:(lia) ltac:(lia) ltac:(lia)). lia.
  - intros [Hlo Hhi]. unfold formatSize.
    repeat match goal with
           | |- context [if ?a >=? ?c then _ else _] =>
               destruct (Z.geb_spec a c); [lia|]
           end.
    destruct (Z.geb_spec b GB); [|lia].
    change (float64_of_int GB) with (mkFloat (2 ^ 30) 0).
    rewrite format_quotient; try lia.
    rewrite HGB. reflexivity.
  - intros Hlo. unfold formatSize.
    destruct (Z.geb_spec b TB); [|lia].
    change (float64_of_int TB) with (mkFloat (2 ^ 40) 0).
    rewrite format_quotient; try lia.
    rewrite HTB. reflexivity.
  - intros Hs. unfold v. rewrite float64_of_int_small by lia.
    unfold intValue. cbn [mant expo]. lia.
  - destruct (Z.eq_dec b 0) as [->|Hne]; [vm_compute; discriminate|].
    destruct (float64_of_int_norm b ltac:(lia))
      as [m [k [E [_ [_ [_ [_ [_ Herr]]]]]]]].
    unfold v. rewrite E. unfold intValue. cbn [mant expo]. exact Herr.
Qed.

Lemma formatSize_units_witness :
  formatSize 1536 = "1.50 KB".
Proof.
  destruct (formatSize_units 1536) as [_ [H _]].
  - unfold maxInt64. lia.
  - rewrite H by (unfold MB, KB; lia). vm_compute. reflexivity.
Defined.

(** ** The usage bar *)

Lemma forallFrom_spec (n : nat) (lo : Z) (f : Z -> bool) :
  forallFrom n lo f = true ->
  forall p, lo <= p < lo + Z.of_nat n -> f p = true.
Proof.
  revert lo. induction n as [|n IH]; intros lo H p Hp; [lia|].
  simpl in H. apply andb_true_iff in H. destruct H as [H0 H1].
  destruct (Z.eq_dec p lo) as [->|Hne]; [exact H0|].
  apply (IH (lo + 1) H1). lia.
Qed.

Lemma usedChars_quot (p : Z) :
  -409 <= p <= 409 -> usedChars p = Z.quot (p * 30) 100.
Proof.
  intros Hp. apply Z.eqb_eq.
  apply (forallFrom_spec 819 (-409)
           (fun p => usedChars p =? Z.quot (p * 30) 100)).
  - vm_compute. reflexivity.
  - lia.
Qed.

(** C3, counterexample: at -1 the computation gives 0 cells where the floor
    of -1/100*30 is -1, the conversion to [int] discarding the fraction; at
    410 it gives 122 where the floor of 410/100*30 is 123, the [float64]
    product being just below 123. *)
Lemma usedChars_not_floor :
  usedChars (-1) = 0 /\ (-1 * 30) / 100 = -1
  /\ usedChars 410 = 122 /\ (410 * 30) / 100 = 123.
Proof. vm_compute. repeat split; reflexivity. Qed.

(** C3, amended: for every [int64] percentage, with no clamping, the used
    cells are the [float64] value of p/100*30 with its fraction discarded,
    which rounds toward zero (the cells of -p are the negated cells of p),
    and the available cells are 30 minus the used cells.  From -409 to 409
    the used cells are the quotient of p*30 by 100 rounded toward zero, so
    from 0 to 409 they are the floor of p*30/100, and from 0 to 100 the two
    counts are between 0 and 30 and add up to 30.  At 150 the same
    computation gives 45 and -15. *)
Theorem bar_cells (p : Z) :
  inInt64 p ->
  availChars p = 30 - usedChars p
  /\ usedChars (- p) = - usedChars p
  /\ (-409 <= p <= 409 -> usedChars p = Z.quot (p * 30) 100)
  /\ (0 <= p <= 409 -> usedChars p = (p * 30) / 100)
  /\ (0 <= p <= 100 ->
      usedChars p + availChars p = 30 /\ 0 <= usedChars p <= 30)
  /\ usedChars 150 = 45 /\ availChars 150 = -15.
Proof.
  intros Hp.
  pose proof (usedChars_int64 p Hp) as Hb.
  assert (Ha : availChars p = 30 - usedChars p).
  { unfold availChars, barWidth.
    apply wrap64_small. unfold minInt64, maxInt64. lia. }
  assert (Hfloor : 0 <= p <= 409 -> usedChars p = (p * 30) / 100).
  { intros H. rewrite usedChars_quot by lia.
    apply Z.quot_div_nonneg; lia. }
  split; [exact Ha|]. split; [apply usedChars_opp|].
  split; [apply usedChars_quot|]. split; [exact Hfloor|]. split.
  - intros H. rewrite Ha. split; [lia|].
    rewrite Hfloor by lia. split.
    + apply Z.div_pos; lia.
    + apply Z.div_le_upper_bound; lia.
  - split; vm_compute; reflexivity.
Qed.

Lemma bar_cells_witness :
  usedChars 37 = 11 /\ availChars 37 = 19.
Proof.
  destruct (bar_cells 37) as [H1 [_ [_ [H2 _]]]].
  - unfold inInt64, minInt64, maxInt64. lia.
  - rewrite H1, H2 by lia. split; reflexivity.
Defined.

(** ** The display *)

Lemma reSplit_nonempty (s : string) (b : bool) : reSplit s b <> [].
Proof.
  revert b. induction s as [|c s IH]; intros b; simpl; [discriminate|].
  destruct (reSpace c).
  - destruct b; [apply IH | discriminate].
  - destruct (reSplit s false); discriminate.
Qed.

(** A prefix without white space is a prefix of the first token. *)
Lemma first_token_prefix (p line : string) :
  spaceFree p = true ->
  HasPrefix line p = true ->
  HasPrefix (field (reSplit line false) 0) p = true.
Proof.
  revert line. induction p as [|c p IH]; intros line Hfree Hpre;
    [reflexivity|].
  destruct line as [|d line]; [discriminate|].
  simpl in Hfree, Hpre.
  apply andb_true_iff in Hfree. destruct Hfree as [Hc Hfree].
  apply andb_true_iff in Hpre. destruct Hpre as [Hd Hpre].
  apply Ascii.eqb_eq in Hd. subst d.
  apply negb_true_iff in Hc.
  specialize (IH line Hfree Hpre).
  cbn [reSplit]. rewrite Hc.
  pose proof (reSplit_nonempty line false) as Hne.
  destruct (reSplit line false) as [|piece rest]; [congruence|].
  unfold field in *. simpl in *.
  rewrite Ascii.eqb_refl. exact IH.
Qed.

(** Every record of the parser names a filesystem that starts with one of
    the three prefixes. *)
Lemma parsed_filesystem_prefix (output : string) (di : DiskInfo) :
  In di (parseDfOutput output) -> hasDfPrefix (Filesystem di) = true.
Proof.
  intros Hin.
  destruct (parseDfOutput_In _ _ Hin) as [raw [_ [Hacc ->]]].
  unfold accepted in Hacc.
  apply andb_true_iff in Hacc. destruct Hacc as [Hacc _].
  apply andb_true_iff in Hacc. destruct Hacc as [_ Hp].
  unfold hasDfPrefix in *. unfold recordOf, splitDfLine. cbn [Filesystem].
  apply orb_true_iff in Hp. destruct Hp as [Hp|Hp].
  - apply orb_true_iff in Hp. destruct Hp as [Hp|Hp].
    + rewrite (first_token_prefix "/" _ eq_refl Hp). reflexivity.
    + rewrite (first_token_prefix "tmpfs" _ eq_refl Hp).
      apply orb_true_iff. left. apply orb_true_r.
  - rewrite (first_token_prefix "devtmpfs" _ eq_refl Hp). apply orb_true_r.
Qed.

Lemma shown_test (di : DiskInfo) :
  HasPrefix (Filesystem di) "/dev" || HasPrefix (Filesystem di) "/"
  = shown di.
Proof.
  unfold shown. destruct (Filesystem di) as [|c s]; [reflexivity|].
  cbn [HasPrefix]. destruct (Ascii.eqb c "/"); [|reflexivity].
  rewrite !andb_true_l. apply orb_true_r.
Qed.

Lemma deviceInfo_block (st : styles) (di : DiskInfo) :
  0 <= usedChars (UsePercent di) <= 30 ->
  deviceInfo st di = Done (blockText st di).
Proof.
  intros Hu. unfold deviceInfo, blockText, Repeat, bind, barWidth.
  rewrite wrap64_small by (unfold minInt64, maxInt64; lia).
  destruct (Z.ltb_spec (usedChars (UsePercent di)) 0); [lia|].
  destruct (Z.ltb_spec (30 - usedChars (UsePercent di)) 0); [lia|].
  change (Z.of_nat (String.length "█")) with 3.
  change (Z.of_nat (String.length "░")) with 3.
  destruct (Z.gtb_spec (3 * usedChars (UsePercent di)) maxInt64);
    [unfold maxInt64 in *; lia|].
  destruct (Z.gtb_spec (3 * (30 - usedChars (UsePercent di))) maxInt64);
    [unfold maxInt64 in *; lia|].
  reflexivity.
Qed.

Lemma viewLoop_blocks (st : styles) (infos : list DiskInfo) (sb : string) :
  (forall di, In di infos -> shown di = true ->
              0 <= usedChars (UsePercent di) <= 30) ->
  viewLoop st infos sb =
  Done (sb ++ String.concat EmptyString
                            (map (blockText st) (filter shown infos))).
Proof.
  revert sb. induction infos as [|di rest IH]; intros sb Hfit.
  - simpl. now rewrite append_empty_r.
  - cbn [viewLoop filter]. rewrite shown_test.
    destruct (shown di) eqn:Hs.
    + rewrite (deviceInfo_block st di) by (apply Hfit; [now left | exact Hs]).
      cbn [bind]. rewrite IH by (intros d Hd; apply Hfit; now right).
      rewrite append_assoc. f_equal. f_equal.
      cbn [map]. generalize (blockText st di). intros b.
      destruct (map (blockText st) (filter shown rest)) as [|x xs] eqn:E.
      * simpl. now rewrite append_empty_r.
      * reflexivity.
    + apply IH. intros d Hd. apply Hfit. now right.
Qed.

(** C4, counterexample: the parser returns a record for the [tmpfs] row,
    and the display writes no block for it. *)
Lemma tmpfs_not_rendered :
  parseDfOutput (report tmpfsRow) =
  [ {| Filesystem := "tmpfs";
       Size := 1073741824;
       Used := 536870912;
       Available := 536870912;
       UsePercent := 50;
       MountPoint := "/run" |} ]
  /\ View plain (mkModel (parseDfOutput (report tmpfsRow)) None)
     = Done EmptyString.
Proof. vm_compute. split; reflexivity. Qed.

(** A record with a percentage of 150: the second [Repeat] is called with
    -15 and [View] panics. *)
Lemma view_panics_over_range :
  View plain
       (mkModel (parseDfOutput (report "/dev/sdb 100 150 0 150% /mnt")) None)
  = Panic "strings: negative Repeat count".
Proof. vm_compute. reflexivity. Qed.

(** C4, amended: the display writes exactly one block for every record of
    the parser whose filesystem begins with [/], in the order of the
    records, and none for the others, which are the [tmpfs] and [devtmpfs]
    records.  The block holds the filesystem label, the size, used and
    available figures, the percentage, the mount point and a bar of two
    segments that together have 30 cells.  This is for reports with at
    least one record, and with cell counts that are not negative in the
    records displayed. *)
Theorem view_renders_shown (st : styles) (output : string) :
  parseDfOutput output <> [] ->
  (forall di, In di (parseDfOutput output) -> shown di = true ->
              0 <= usedChars (UsePercent di) <= 30) ->
  View st (mkModel (parseDfOutput output) None) =
  Done (String.concat EmptyString
          (map (blockText st) (filter shown (parseDfOutput output))))
  /\ (forall di, In di (parseDfOutput output) ->
                 shown di = true
                 \/ (shown di = false
                     /\ HasPrefix (Filesystem di) "tmpfs"
                        || HasPrefix (Filesystem di) "devtmpfs" = true))
  /\ (forall di, In di (parseDfOutput output) -> shown di = true ->
                 (Z.to_nat (usedChars (UsePercent di))
                  + Z.to_nat (barWidth - usedChars (UsePercent di)) = 30)%nat).
Proof.
  intros Hne Hfit. split; [|split].
  - unfold View. cbn [err diskInfos].
    destruct (parseDfOutput output) as [|di rest] eqn:E; [congruence|].
    rewrite (viewLoop_blocks st (di :: rest) EmptyString Hfit).
    reflexivity.
  - intros di Hin. pose proof (parsed_filesystem_prefix _ _ Hin) as Hp.
    unfold hasDfPrefix in Hp. unfold shown.
    destruct (HasPrefix (Filesystem di) "/"); [now left|].
    right. split; [reflexivity|]. exact Hp.
  - intros di Hin Hs. specialize (Hfit di Hin Hs). unfold barWidth. lia.
Qed.

Lemma view_renders_shown_witness :
  View plain (mkModel (parseDfOutput sampleReport) None) =
  Done (blockText plain
          {| Filesystem := "/dev/sda1";
             Size := 1073741824;
             Used := 536870912;
             Available := 536870912;
             UsePercent := 50;
             MountPoint := "/" |}).
Proof.
  destruct (view_renders_shown plain sampleReport) as [H _].
  - vm_compute. discriminate.
  - intros di Hin _. vm_compute in Hin. destruct Hin as [E|[]].
    rewrite <- E. vm_compute. split; discriminate.
  - rewrite H. vm_compute. reflexivity.
Defined.

(** ** The model of [float64] against [SpecFloat] *)

(** The bar product for the percentages from -2000 to 2000 and the size
    quotients for two thousand sizes in each unit have the same value in
    the model above and in the library's IEEE 754 specification. *)
Lemma float64_agrees_with_SpecFloat :
  forallFrom 4001 (-2000) agreeBar = true
  /\ forallFrom 2000 0 agreeSizes = true.
Proof. vm_compute. split; reflexivity. Qed.

(** * Further properties of the program *)

(** ** The lines of the report *)

Lemma Split_nonempty (s : string) (sep : ascii) : Split s sep <> [].
Proof.
  induction s as [|c s IH]; simpl; [discriminate|].
  destruct (Ascii.eqb c sep); [discriminate|].
  destruct (Split s sep); discriminate.
Qed.

Lemma Split_no_sep (s : string) (sep : ascii) :
  containsByte sep s = false -> Split s sep = [s].
Proof.
  induction s as [|c s IH]; intros H; simpl in *; [reflexivity|].
  apply orb_false_iff in H. destruct H as [Hc Hs].
  rewrite Hc, (IH Hs). reflexivity.
Qed.

Lemma Split_append (a b : string) (sep : ascii) :
  Split (a ++ String sep b) sep = (Split a sep ++ Split b sep)%list.
Proof.
  induction a as [|c a IH]; simpl.
  - rewrite Ascii.eqb_refl. reflexivity.
  - destruct (Ascii.eqb c sep).
    + rewrite IH. reflexivity.
    + rewrite IH. pose proof (Split_nonempty a sep) as Hne.
      destruct (Split a sep); [congruence | reflexivity].
Qed.

(** X1: a text without a newline, the empty text or a lone header line,
    gives no record. *)
Theorem parseDfOutput_one_line (output : string) :
  containsByte nl output = false -> parseDfOutput output = [].
Proof.
  intros H. unfold parseDfOutput. rewrite (Split_no_sep _ _ H). reflexivity.
Qed.

Lemma parseDfOutput_one_line_witness :
  parseDfOutput header = [] /\ parseDfOutput EmptyString = [].
Proof.
  split; apply parseDfOutput_one_line; vm_compute; reflexivity.
Defined.

(** X2: lines appended to a text add their records after those of the
    text, in order. *)
Theorem parseDfOutput_append (output more : string) :
  parseDfOutput (output ++ String nl more) =
  (parseDfOutput output ++ flat_map lineRecords (Split more nl))%list.
Proof.
  rewrite !parseDfOutput_flat_map, Split_append.
  rewrite (skipn_1_app _ _ _ (Split_nonempty output nl)).
  apply flat_map_app.
Qed.

(** X3: the first line is discarded whatever it holds, a data row
    included: the records are those of the lines after it. *)
Theorem first_line_discarded (first rest : string) :
  containsByte nl first = false ->
  parseDfOutput (first ++ String nl rest) =
  flat_map lineRecords (Split rest nl).
Proof.
  intros H.
  rewrite parseDfOutput_flat_map, Split_append, (Split_no_sep _ _ H).
  reflexivity.
Qed.

Lemma first_line_discarded_witness :
  parseDfOutput ("/dev/sda1 1048576 524288 524288 50% /"
                 ++ String nl "/dev/sdb1 2048 1024 1024 50% /data")
  = flat_map lineRecords (Split "/dev/sdb1 2048 1024 1024 50% /data" nl).
Proof.
  apply (first_line_discarded "/dev/sda1 1048576 524288 524288 50% /").
  vm_compute. reflexivity.
Defined.

(** X4: the result is the accepted lines after the first, in their order,
    each turned into the record of its tokens; so there are as many
    records as accepted lines. *)
Theorem parseDfOutput_filter_map (output : string) :
  parseDfOutput output =
  map (fun raw => recordOf (splitDfLine (TrimSpace raw)))
      (filter accepted (skipn 1 (Split output nl)))
  /\ List.length (parseDfOutput output) =
     List.length (filter accepted (skipn 1 (Split output nl))).
Proof.
  assert (E : parseDfOutput output =
              map (fun raw => recordOf (splitDfLine (TrimSpace raw)))
                  (filter accepted (skipn 1 (Split output nl)))).
  { rewrite parseDfOutput_flat_map.
    induction (skipn 1 (Split output nl)) as [|raw rest IH]; [reflexivity|].
    cbn [flat_map filter]. rewrite lineRecords_cases, IH.
    destruct (accepted raw); reflexivity. }
  split; [exact E|]. rewrite E. apply length_map.
Qed.

(** ** What every record satisfies *)

Lemma wrap64_range (z : Z) : inInt64 (wrap64 z).
Proof.
  unfold inInt64, wrap64, minInt64, maxInt64.
  pose proof (Z.mod_pos_bound (z + 2 ^ 63) (2 ^ 64) ltac:(lia)). lia.
Qed.

Lemma wrap64_kilo (v : Z) : wrap64 (v * 1024) mod 1024 = 0.
Proof.
  unfold wrap64.
  replace (v * 1024 + 2 ^ 63) with ((v + 2 ^ 53) * 1024) by lia.
  change (2 ^ 64) with (2 ^ 54 * 1024).
  rewrite Z.mul_mod_distr_r by lia.
  change (2 ^ 63) with (2 ^ 53 * 1024).
  rewrite <- Z.mul_sub_distr_r. apply Z.mod_mul. lia.
Qed.

Lemma ParseInt_range_value (s : string) : inInt64 (fst (ParseInt s)).
Proof.
  unfold ParseInt. destruct s as [|c0 s1].
  - unfold inInt64, minInt64, maxInt64. simpl. lia.
  - destruct (ParseUint _) as [un [| |]];
      repeat match goal with
             | |- context [if ?b then _ else _] => destruct b
             end; cbn [fst]; try apply wrap64_range;
        unfold inInt64, minInt64, maxInt64; lia.
Qed.

Lemma Atoi_range_value (s : string) : inInt64 (fst (Atoi s)).
Proof.
  unfold Atoi.
  destruct (_ && _); [|apply ParseInt_range_value].
  assert (Hz : inInt64 0) by (unfold inInt64, minInt64, maxInt64; lia).
  destruct s as [|c0 s1]; [exact Hz|].
  destruct (_ && _); [exact Hz|].
  set (body := if isByte c0 45 || isByte c0 43 then s1 else String c0 s1).
  assert (Hloop : forall t n, inInt64 n -> inInt64 (fst (atoiLoop t n))).
  { induction t as [|c t IH]; intros n Hn; simpl; [exact Hn|].
    destruct (_ >? 9); [exact Hz|]. apply IH, wrap64_range. }
  specialize (Hloop body 0 Hz).
  destruct (atoiLoop body 0) as [n [| |]]; cbn [fst] in *; try exact Hloop.
  destruct (isByte c0 45); [apply wrap64_range | exact Hloop].
Qed.

(** X5: in every record the size, used and available bytes are [int64]
    values and whole multiples of 1024, and the percentage is an [int64]
    value, whatever the text. *)
Theorem record_fields_invariant (output : string) (r : DiskInfo) :
  In r (parseDfOutput output) ->
  (inInt64 (Size r) /\ Size r mod 1024 = 0)
  /\ (inInt64 (Used r) /\ Used r mod 1024 = 0)
  /\ (inInt64 (Available r) /\ Available r mod 1024 = 0)
  /\ inInt64 (UsePercent r).
Proof.
  intros Hin.
  destruct (parseDfOutput_In _ _ Hin) as [raw [_ [_ ->]]].
  unfold recordOf; cbn [Size Used Available UsePercent].
  repeat split; try apply wrap64_range; try apply wrap64_kilo;
    apply Atoi_range_value.
Qed.

Lemma record_fields_invariant_witness :
  (inInt64 (-1024) /\ -1024 mod 1024 = 0)
  /\ (inInt64 536870912 /\ 536870912 mod 1024 = 0)
  /\ (inInt64 536870912 /\ 536870912 mod 1024 = 0)
  /\ inInt64 50.
Proof.
  apply (record_fields_invariant (report overflowRow)
           {| Filesystem := "/dev/sda1";
              Size := -1024;
              Used := 536870912;
              Available := 536870912;
              UsePercent := 50;
              MountPoint := "/" |}).
  vm_compute. left. reflexivity.
Defined.

(** ** The tokens of a line *)

Lemma reSplit_spaceFree (s : string) (b : bool) :
  Forall (fun t => spaceFree t = true) (reSplit s b).
Proof.
  revert b. induction s as [|c s IH]; intros b; cbn [reSplit].
  - constructor; [reflexivity | constructor].
  - destruct (reSpace c) eqn:Hc.
    + destruct b; [apply IH|]. constructor; [reflexivity | apply IH].
    + specialize (IH false).
      destruct (reSplit s false) as [|piece rest].
      * constructor; [|constructor]. cbn [spaceFree]. rewrite Hc. reflexivity.
      * inversion IH as [|? ? Hp Hr]; subst.
        constructor; [|exact Hr]. cbn [spaceFree]. rewrite Hc, Hp. reflexivity.
Qed.

Lemma reSplit_tokens_nonempty (s : string) :
  endsNonSpace s = true ->
  Forall (fun t => nonEmpty t = true) (reSplit s true)
  /\ Forall (fun t => nonEmpty t = true) (tl (reSplit s false)).
Proof.
  induction s as [|c s IH]; intros He; [discriminate|].
  destruct s as [|d s'].
  - cbn [endsNonSpace] in He. apply negb_true_iff in He.
    cbn [reSplit]. rewrite He. cbn [tl].
    split; [constructor; [reflexivity | constructor] | constructor].
  - assert (He' : endsNonSpace (String d s') = true) by exact He.
    specialize (IH He'). destruct IH as [IHt IHf].
    remember (String d s') as s eqn:Es.
    cbn [reSplit]. destruct (reSpace c).
    + split; [exact IHt | exact IHt].
    + destruct (reSplit s false) as [|piece rest]; cbn [tl] in *.
      * split; [constructor; [reflexivity | constructor] | constructor].
      * split; [constructor; [reflexivity | exact IHf] | exact IHf].
Qed.

Lemma reSplit_all_nonempty (c : ascii) (s : string) :
  reSpace c = false -> endsNonSpace (String c s) = true ->
  Forall (fun t => nonEmpty t = true) (reSplit (String c s) false).
Proof.
  intros Hc He.
  destruct (reSplit_tokens_nonempty _ He) as [_ Hf].
  revert Hf. cbn [reSplit]. rewrite Hc.
  destruct (reSplit s false) as [|piece rest]; cbn [tl]; intros Hf;
    constructor; try reflexivity; exact Hf.
Qed.

Lemma endsNonSpace_last (s : string) (a : ascii) :
  endsNonSpace (s ++ String a EmptyString) = negb (reSpace a).
Proof.
  induction s as [|c s IH]; [reflexivity|].
  cbn [append endsNonSpace]. rewrite IH.
  destruct (s ++ String a EmptyString) eqn:E; [|reflexivity].
  destruct s; discriminate.
Qed.

Lemma reSpace_asciiSpace (a : ascii) : reSpace a = true -> asciiSpace a = true.
Proof.
  unfold reSpace, asciiSpace. intros H.
  repeat (apply orb_true_iff in H; destruct H as [H|H]);
    apply Z.eqb_eq in H; rewrite H; reflexivity.
Qed.

Lemma trimLeftSpaceRev_head_fuel (n : nat) :
  forall r, (String.length r <= n)%nat ->
            match trimLeftSpaceRev r with
            | EmptyString => True
            | String a _ => asciiSpace a = false
            end.
Proof.
  induction n as [|n IH]; intros r Hlen.
  - destruct r; [exact I | simpl in Hlen; lia].
  - destruct r as [|a r1]; [exact I|].
    cbn [trimLeftSpaceRev]. cbn [String.length] in Hlen.
    destruct (asciiSpace a) eqn:Ha; [apply IH; lia|].
    destruct r1 as [|b r2]; [exact Ha|].
    cbn [String.length] in Hlen.
    destruct (isSpace2 b a); [apply IH; lia|].
    destruct r2 as [|c r3]; [exact Ha|].
    cbn [String.length] in Hlen.
    destruct (isSpace3 c b a); [apply IH; lia | exact Ha].
Qed.

(** The trimmed text is empty or ends with a byte that [\s] does not
    match. *)
Lemma TrimSpace_ends (s : string) :
  TrimSpace s = EmptyString \/ endsNonSpace (TrimSpace s) = true.
Proof.
  unfold TrimSpace, trimRightSpace.
  set (r := rev (trimLeftSpace s)).
  pose proof (trimLeftSpaceRev_head_fuel (String.length r) r (le_n _)) as H.
  destruct (trimLeftSpaceRev r) as [|a u]; [now left|].
  right. cbn [rev]. rewrite endsNonSpace_last.
  destruct (reSpace a) eqn:Hr; [|reflexivity].
  apply reSpace_asciiSpace in Hr. congruence.
Qed.

Lemma hasDfPrefix_first (line : string) :
  hasDfPrefix line = true ->
  exists c rest, line = String c rest /\ reSpace c = false.
Proof.
  destruct line as [|c rest]; [discriminate|]. intros H.
  exists c, rest. split; [reflexivity|].
  unfold hasDfPrefix in H. cbn [HasPrefix] in H. revert H.
  destruct (Ascii.eqb_spec c "/") as [->|N1]; [reflexivity|].
  destruct (Ascii.eqb_spec c "t") as [->|N2]; [reflexivity|].
  destruct (Ascii.eqb_spec c "d") as [->|N3]; [reflexivity|].
  discriminate.
Qed.

Lemma accepted_tokens (raw : string) :
  accepted raw = true ->
  Forall (fun t => nonEmpty t = true /\ spaceFree t = true)
         (splitDfLine (TrimSpace raw)).
Proof.
  unfold accepted. intros H.
  apply andb_true_iff in H. destruct H as [H _].
  apply andb_true_iff in H. destruct H as [Hne Hp].
  apply negb_true_iff, String.eqb_neq in Hne.
  destruct (TrimSpace_ends raw) as [He|He]; [congruence|].
  destruct (hasDfPrefix_first _ Hp) as [c [rest [E Hc]]].
  unfold splitDfLine. rewrite E in *.
  pose proof (reSplit_all_nonempty c rest Hc He) as H1.
  pose proof (reSplit_spaceFree (String c rest) false) as H2.
  rewrite Forall_forall in *. intros t Ht. split; auto.
Qed.

(** X6: the filesystem and the mount point of every record are not empty
    and hold no byte that [\s] matches (blank, tab, newline, form feed,
    carriage return): a mount point with a blank in its path is cut at the
    blank. *)
Theorem record_names_are_tokens (output : string) (r : DiskInfo) :
  In r (parseDfOutput output) ->
  nonEmpty (Filesystem r) = true /\ spaceFree (Filesystem r) = true
  /\ nonEmpty (MountPoint r) = true /\ spaceFree (MountPoint r) = true.
Proof.
  intros Hin.
  destruct (parseDfOutput_In _ _ Hin) as [raw [_ [Hacc ->]]].
  pose proof (accepted_tokens raw Hacc) as Htok.
  unfold accepted in Hacc. apply andb_true_iff in Hacc.
  destruct Hacc as [_ Hlen]. apply Nat.leb_le in Hlen.
  set (fields := splitDfLine (TrimSpace raw)) in *.
  rewrite Forall_forall in Htok.
  assert (H0 : In (field fields 0) fields)
    by (unfold field; apply nth_In; lia).
  assert (H5 : In (field fields 5) fields)
    by (unfold field; apply nth_In; lia).
  unfold recordOf; cbn [Filesystem MountPoint].
  destruct (Htok _ H0) as [A B]. destruct (Htok _ H5) as [C D].
  repeat split; assumption.
Qed.

Lemma record_names_are_tokens_witness :
  nonEmpty "/mnt/my" = true /\ spaceFree "/mnt/my" = true.
Proof.
  destruct (record_names_are_tokens
              (report "/dev/sdb1 2048 1024 1024 50% /mnt/my disk")
              {| Filesystem := "/dev/sdb1";
                 Size := 2097152;
                 Used := 1048576;
                 Available := 1048576;
                 UsePercent := 50;
                 MountPoint := "/mnt/my" |}) as [_ [_ [H1 H2]]].
  - vm_compute. left. reflexivity.
  - split; [exact H1 | exact H2].
Defined.

(** ** Rows written token by token *)

Lemma reSplit_token_prefix (t s piece : string) (rest : list string) :
  spaceFree t = true ->
  reSplit s false = piece :: rest ->
  reSplit (t ++ s) false = (t ++ piece) :: rest.
Proof.
  intros Ht Hs. induction t as [|c t IH]; [exact Hs|].
  cbn [spaceFree] in Ht. apply andb_true_iff in Ht. destruct Ht as [Hc Ht].
  apply negb_true_iff in Hc.
  cbn [append reSplit]. rewrite Hc, (IH Ht). reflexivity.
Qed.

Lemma token_first_byte (t : string) :
  nonEmpty t = true -> spaceFree t = true ->
  exists c t', t = String c t' /\ reSpace c = false.
Proof.
  destruct t as [|c t']; [discriminate|]. intros _ H.
  cbn [spaceFree] in H. apply andb_true_iff in H. destruct H as [Hc _].
  apply negb_true_iff in Hc. eauto.
Qed.

Lemma splitDfLine_join (tokens : list string) :
  tokens <> [] ->
  Forall (fun t => nonEmpty t = true /\ spaceFree t = true) tokens ->
  splitDfLine (String.concat " " tokens) = tokens.
Proof.
  unfold splitDfLine. intros Hne Hall.
  induction tokens as [|t ts IH]; [congruence|].
  inversion Hall as [|? ? [Hn Hf] Hts]; subst.
  destruct ts as [|t2 ts'].
  - cbn [String.concat].
    rewrite <- (append_empty_r t) at 1.
    rewrite (reSplit_token_prefix t EmptyString EmptyString []); auto.
    now rewrite append_empty_r.
  - assert (IH2 : reSplit (String.concat " " (t2 :: ts')) false = t2 :: ts')
      by (apply IH; [discriminate | exact Hts]).
    inversion Hts as [|? ? [Hn2 Hf2] _]; subst.
    destruct (token_first_byte t2 Hn2 Hf2) as [c [t2' [E Hc]]].
    assert (Htrue : reSplit (String.concat " " (t2 :: ts')) true
                    = reSplit (String.concat " " (t2 :: ts')) false).
    { assert (Ex : exists X, String.concat " " (t2 :: ts') = String c X).
      { rewrite E. destruct ts'; cbn [String.concat append]; eauto. }
      destruct Ex as [X ->]. cbn [reSplit]. rewrite Hc. reflexivity. }
    change (String.concat " " (t :: t2 :: ts'))
      with (t ++ String " " (String.concat " " (t2 :: ts'))).
    rewrite (reSplit_token_prefix t _ EmptyString (t2 :: ts') Hf).
    + now rewrite append_empty_r.
    + cbn [reSplit]. change (reSpace " ") with true. cbv iota.
      rewrite Htrue, IH2. reflexivity.
Qed.

(** X7: tokens that are not empty and hold no byte matched by [\s], joined
    with single blanks, split back into the same tokens. *)
Theorem splitDfLine_round_trip (tokens : list string) :
  tokens <> [] ->
  Forall (fun t => nonEmpty t = true /\ spaceFree t = true) tokens ->
  splitDfLine (String.concat " " tokens) = tokens
  /\ List.length (splitDfLine (String.concat " " tokens))
     = List.length tokens.
Proof.
  intros Hne Hall. rewrite (splitDfLine_join tokens Hne Hall).
  split; reflexivity.
Qed.

Lemma splitDfLine_round_trip_witness :
  splitDfLine "/dev/sda1 1048576 524288 524288 50% /"
  = ["/dev/sda1"; "1048576"; "524288"; "524288"; "50%"; "/"].
Proof.
  apply (splitDfLine_round_trip
           ["/dev/sda1"; "1048576"; "524288"; "524288"; "50%"; "/"]).
  - discriminate.
  - repeat constructor.
Defined.

Lemma HasPrefix_append (s t p : string) :
  HasPrefix s p = true -> HasPrefix (s ++ t) p = true.
Proof.
  revert s. induction p as [|c p IH]; intros s H; [reflexivity|].
  destruct s as [|d s]; [discriminate|].
  cbn [HasPrefix append] in *.
  apply andb_true_iff in H. destruct H as [Hd Hp].
  rewrite Hd, (IH _ Hp). reflexivity.
Qed.

Lemma containsByte_append (c : ascii) (s t : string) :
  containsByte c (s ++ t) = containsByte c s || containsByte c t.
Proof.
  induction s as [|d s IH]; [reflexivity|].
  cbn [append containsByte]. rewrite IH. apply orb_assoc.
Qed.

Lemma spaceFree_no_newline (t : string) :
  spaceFree t = true -> containsByte nl t = false.
Proof.
  induction t as [|c t IH]; [reflexivity|]. cbn [spaceFree containsByte].
  intros H. apply andb_true_iff in H. destruct H as [Hc Ht].
  rewrite (IH Ht), orb_false_r.
  destruct (Ascii.eqb_spec c nl) as [->|]; [discriminate | reflexivity].
Qed.

Lemma join_no_newline (tokens : list string) :
  Forall (fun t => nonEmpty t = true /\ spaceFree t = true) tokens ->
  containsByte nl (String.concat " " tokens) = false.
Proof.
  induction tokens as [|t ts IH]; intros H; [reflexivity|].
  inversion H as [|? ? [_ Hf] Hts]; subst.
  destruct ts as [|t2 ts'].
  - apply spaceFree_no_newline, Hf.
  - change (String.concat " " (t :: t2 :: ts'))
      with (t ++ String " " (String.concat " " (t2 :: ts'))).
    rewrite containsByte_append, (spaceFree_no_newline _ Hf).
    cbn [containsByte orb]. rewrite (IH Hts). reflexivity.
Qed.

(** X8: a row of six tokens or more, not empty and free of [\s] bytes,
    whose first token starts with one of the three prefixes, joined with
    single blanks into a text that [TrimSpace] leaves alone, parses after
    any first line to exactly the record of its tokens; tokens after the
    sixth are ignored. *)
Theorem parseDfOutput_row (first : string) (tokens : list string) :
  containsByte nl first = false ->
  (6 <= List.length tokens)%nat ->
  Forall (fun t => nonEmpty t = true /\ spaceFree t = true) tokens ->
  hasDfPrefix (field tokens 0) = true ->
  TrimSpace (String.concat " " tokens) = String.concat " " tokens ->
  parseDfOutput (first ++ String nl (String.concat " " tokens))
  = [recordOf tokens]
  /\ recordOf tokens = recordOf (firstn 6 tokens).
Proof.
  intros Hfirst Hlen Hall Hp Htrim.
  assert (Hne : tokens <> []) by (destruct tokens; [simpl in Hlen; lia | discriminate]).
  set (row := String.concat " " tokens) in *.
  split.
  - rewrite parseDfOutput_flat_map, Split_append, (Split_no_sep _ _ Hfirst).
    cbn [app skipn].
    pose proof (Split_no_sep _ _ (join_no_newline _ Hall)) as HS.
    fold row in HS. rewrite HS.
    cbn [flat_map]. rewrite app_nil_r, lineRecords_cases.
    assert (Hsplit : splitDfLine row = tokens)
      by (apply splitDfLine_join; assumption).
    assert (Hrow : hasDfPrefix row = true).
    { unfold row. destruct tokens as [|t ts]; [congruence|].
      unfold field in Hp. cbn [nth] in Hp. unfold hasDfPrefix in *.
      assert (Ex : exists X, String.concat " " (t :: ts) = t ++ X).
      { destruct ts; cbn [String.concat]; [exists EmptyString | eauto].
        now rewrite append_empty_r. }
      destruct Ex as [X ->].
      repeat (apply orb_true_iff in Hp; destruct Hp as [Hp|Hp]);
        rewrite (HasPrefix_append _ X _ Hp); rewrite ?orb_true_r; reflexivity. }
    unfold accepted. rewrite Htrim, Hrow, Hsplit.
    rewrite (hasDfPrefix_nonempty _ Hrow).
    apply Nat.leb_le in Hlen. rewrite Hlen. reflexivity.
  - unfold recordOf, field.
    assert (Hn : forall i, (i < 6)%nat ->
                           nth i (firstn 6 tokens) EmptyString
                           = nth i tokens EmptyString).
    { intros i Hi. rewrite nth_firstn.
      destruct (Nat.ltb_spec i 6); [reflexivity | lia]. }
    rewrite !Hn by lia. reflexivity.
Qed.

Lemma parseDfOutput_row_witness :
  parseDfOutput
    (header ++ String nl "/dev/sdb1 2048 1024 1024 50% /mnt/my disk")
  = [ recordOf ["/dev/sdb1"; "2048"; "1024"; "1024"; "50%"; "/mnt/my";
                "disk"] ].
Proof.
  destruct (parseDfOutput_row header
              ["/dev/sdb1"; "2048"; "1024"; "1024"; "50%"; "/mnt/my"; "disk"])
    as [H _].
  - vm_compute. reflexivity.
  - simpl. lia.
  - repeat constructor.
  - vm_compute. reflexivity.
  - vm_compute. reflexivity.
  - exact H.
Defined.

(** ** Numbers written and read back *)

Lemma decVal_nonneg (s : string) : allDigits s = true -> 0 <= decVal s.
Proof.
  induction s as [|c s IH]; intros H; [reflexivity|].
  cbn [allDigits decVal] in *.
  apply andb_true_iff in H. destruct H as [H Hs].
  apply andb_true_iff in H. destruct H as [Hlo Hhi].
  apply Z.leb_le in Hlo. specialize (IH Hs).
  pose proof (Z.pow_nonneg 10 (Z.of_nat (String.length s)) ltac:(lia)). nia.
Qed.

Lemma digits_step (c : ascii) (s : string) (k : Z) :
  allDigits (String c s) = true -> 0 <= k ->
  48 <= byteVal c <= 57
  /\ allDigits s = true
  /\ 0 <= k * 10 + (byteVal c - 48)
  /\ k * 10 ^ Z.of_nat (String.length (String c s)) + decVal (String c s)
     = (k * 10 + (byteVal c - 48)) * 10 ^ Z.of_nat (String.length s)
       + decVal s
  /\ k * 10 + (byteVal c - 48)
     <= k * 10 ^ Z.of_nat (String.length (String c s)) + decVal (String c s).
Proof.
  intros H Hk. cbn [allDigits] in H.
  apply andb_true_iff in H. destruct H as [H Hs].
  apply andb_true_iff in H. destruct H as [Hlo Hhi].
  apply Z.leb_le in Hlo. apply Z.leb_le in Hhi.
  pose proof (decVal_nonneg s Hs) as Hd.
  assert (HP : 1 <= 10 ^ Z.of_nat (String.length s)).
  { pose proof (Z.pow_pos_nonneg 10 (Z.of_nat (String.length s))
                  ltac:(lia) ltac:(lia)). lia. }
  assert (E : 10 ^ Z.of_nat (String.length (String c s))
              = 10 * 10 ^ Z.of_nat (String.length s)).
  { cbn [String.length].
    replace (Z.of_nat (S (String.length s)))
      with (1 + Z.of_nat (String.length s)) by lia.
    rewrite Z.pow_add_r by lia. reflexivity. }
  cbn [decVal]. rewrite E.
  set (P := 10 ^ Z.of_nat (String.length s)) in *.
  repeat split; try lia; try assumption; nia.
Qed.

Lemma parseUintLoop_digits (s : string) (k : Z) :
  allDigits s = true -> 0 <= k ->
  k * 10 ^ Z.of_nat (String.length s) + decVal s <= maxUint64 ->
  parseUintLoop s k
  = (k * 10 ^ Z.of_nat (String.length s) + decVal s, NoError).
Proof.
  revert k. induction s as [|c s IH]; intros k Hall Hk Hmax.
  - cbn. f_equal. lia.
  - destruct (digits_step c s k Hall Hk) as [[Hlo Hhi] [Hs [Hk' [E Hle]]]].
    cbn [parseUintLoop].
    destruct (Z.leb_spec 48 (byteVal c)); [|lia].
    destruct (Z.leb_spec (byteVal c) 57); [|lia]. cbn [andb].
    unfold maxUint64 in *.
    destruct (Z.geb_spec k ((2 ^ 64 - 1) / 10 + 1)) as [Hc|Hc].
    { change ((2 ^ 64 - 1) / 10 + 1) with 1844674407370955162 in Hc. lia. }
    destruct (Z.gtb_spec (k * 10 + (byteVal c - 48)) (2 ^ 64 - 1)); [lia|].
    rewrite E. apply IH; try assumption. rewrite <- E. exact Hmax.
Qed.

Lemma atoiLoop_digits (s : string) (k : Z) :
  allDigits s = true -> 0 <= k ->
  k * 10 ^ Z.of_nat (String.length s) + decVal s <= maxInt64 ->
  atoiLoop s k = (k * 10 ^ Z.of_nat (String.length s) + decVal s, NoError).
Proof.
  revert k. induction s as [|c s IH]; intros k Hall Hk Hmax.
  - cbn. f_equal. lia.
  - destruct (digits_step c s k Hall Hk) as [[Hlo Hhi] [Hs [Hk' [E Hle]]]].
    cbn [atoiLoop].
    rewrite (Z.mod_small (byteVal c - 48) 256) by lia.
    destruct (Z.gtb_spec (byteVal c - 48) 9); [lia|].
    rewrite wrap64_small by (unfold minInt64, maxInt64 in *; lia).
    rewrite E. apply IH; try assumption. rewrite <- E. exact Hmax.
Qed.

Lemma utoaLoop_nonempty (fuel : nat) (n : Z) (acc : string) :
  nonEmpty acc = true -> nonEmpty (utoaLoop fuel n acc) = true.
Proof.
  revert n acc. induction fuel as [|fuel IH]; intros n acc H; [exact H|].
  cbn [utoaLoop]. destruct (n <? 10); [reflexivity | apply IH; reflexivity].
Qed.

(** The text of a non-negative number: a digit first, digits only, and the
    number as its value. *)
Lemma utoa_shape (n : Z) :
  0 <= n ->
  exists c s,
    utoa n = String c s
    /\ 48 <= byteVal c <= 57
    /\ allDigits (utoa n) = true
    /\ decVal (utoa n) = n.
Proof.
  intros Hn. destruct (utoa_value n Hn) as [Hv Hd].
  assert (Hne : nonEmpty (utoa n) = true).
  { unfold utoa. cbn [utoaLoop].
    destruct (n <? 10); [reflexivity | apply utoaLoop_nonempty; reflexivity]. }
  destruct (utoa n) as [|c s] eqn:E; [discriminate|].
  exists c, s. repeat split; try assumption;
    cbn [allDigits] in Hd;
    apply andb_true_iff in Hd; destruct Hd as [Hd _];
    apply andb_true_iff in Hd; destruct Hd as [Hlo Hhi];
    [apply Z.leb_le in Hlo | apply Z.leb_le in Hhi]; assumption.
Qed.

Lemma ParseUint_utoa (n : Z) :
  0 <= n <= maxUint64 -> ParseUint (utoa n) = (n, NoError).
Proof.
  intros Hn. destruct (utoa_shape n ltac:(lia)) as [c [s [E [_ [Hd Hv]]]]].
  unfold ParseUint. rewrite E. rewrite <- E.
  rewrite parseUintLoop_digits; try assumption; try lia.
  f_equal. lia.
Qed.

Lemma ParseInt_itoa (n : Z) : inInt64 n -> ParseInt (itoa n) = (n, NoError).
Proof.
  unfold inInt64, minInt64, maxInt64. intros Hn. unfold itoa.
  destruct (Z.ltb_spec n 0) as [Hneg|Hpos].
  - change ("-" ++ utoa (- n)) with (String "-" (utoa (- n))).
    unfold ParseInt. change (isByte "-" 45) with true.
    change (isByte "-" 43) with false. cbn [orb negb andb].
    rewrite ParseUint_utoa by (unfold maxUint64; lia).
    destruct (Z.gtb_spec (- n) (2 ^ 63)); [lia|].
    f_equal.
    destruct (Z.eq_dec n (- 2 ^ 63)) as [->|Hne]; [reflexivity|].
    rewrite (wrap64_small (- n)) by (unfold minInt64, maxInt64; lia).
    rewrite Z.opp_involutive.
    apply wrap64_small. unfold minInt64, maxInt64. lia.
  - destruct (utoa_shape n Hpos) as [c [s [E [Hc _]]]].
    unfold ParseInt. rewrite E.
    assert (H45 : isByte c 45 = false)
      by (unfold isByte; apply Z.eqb_neq; lia).
    assert (H43 : isByte c 43 = false)
      by (unfold isByte; apply Z.eqb_neq; lia).
    rewrite H45, H43. cbn [orb negb andb]. rewrite <- E.
    rewrite ParseUint_utoa by (unfold maxUint64; lia).
    destruct (Z.geb_spec n (2 ^ 63)); [lia|].
    f_equal. rewrite !wrap64_small; unfold minInt64, maxInt64; try lia.
    rewrite wrap64_small; unfold minInt64, maxInt64; lia.
Qed.

Lemma Atoi_itoa (n : Z) : inInt64 n -> Atoi (itoa n) = (n, NoError).
Proof.
  intros Hn. pose proof (ParseInt_itoa n Hn) as HP.
  unfold Atoi. destruct (_ && _); [|exact HP].
  unfold inInt64, minInt64, maxInt64 in Hn. unfold itoa.
  destruct (Z.ltb_spec n 0) as [Hneg|Hpos].
  - destruct (Z.eq_dec n (- 2 ^ 63)) as [->|Hne]; [reflexivity|].
    change ("-" ++ utoa (- n)) with (String "-" (utoa (- n))).
    cbv beta iota zeta.
    change (isByte "-" 45) with true. cbn [orb andb].
    destruct (utoa_shape (- n) ltac:(lia)) as [c [s [E [_ [Hd Hv]]]]].
    assert (Hlen : (Z.of_nat (String.length (utoa (- n))) <? 1) = false).
    { rewrite E. cbn [String.length]. apply Z.ltb_ge. lia. }
    rewrite Hlen.
    rewrite atoiLoop_digits; try assumption; try lia;
      [|unfold maxInt64; lia].
    f_equal. rewrite Z.mul_0_l, Z.add_0_l, Hv, Z.opp_involutive.
    apply wrap64_small. unfold minInt64, maxInt64. lia.
  - destruct (utoa_shape n Hpos) as [c [s [E [Hc [Hd Hv]]]]].
    rewrite E.
    assert (H45 : isByte c 45 = false)
      by (unfold isByte; apply Z.eqb_neq; lia).
    assert (H43 : isByte c 43 = false)
      by (unfold isByte; apply Z.eqb_neq; lia).
    rewrite H45, H43. cbn [orb andb]. rewrite <- E.
    rewrite atoiLoop_digits; try assumption; try lia;
      [|unfold maxInt64; lia].
    f_equal. lia.
Qed.

(** X9: a number written with [%d] reads back as itself, with no error,
    through [ParseInt] and through [Atoi]; so the percentage text that
    [View] writes, the number followed by [%], gives the parser the same
    percentage again. *)
Theorem number_round_trip (n : Z) :
  inInt64 n ->
  ParseInt (itoa n) = (n, NoError)
  /\ Atoi (itoa n) = (n, NoError)
  /\ Atoi (TrimSuffix (itoa n ++ "%") "%") = (n, NoError).
Proof.
  intros Hn. split; [apply ParseInt_itoa, Hn|].
  split; [apply Atoi_itoa, Hn|].
  rewrite (TrimSuffix_last (itoa n) "%"). cbn [Ascii.eqb].
  change (Ascii.eqb "%" "%") with true. cbv iota.
  apply Atoi_itoa, Hn.
Qed.

Lemma number_round_trip_witness :
  ParseInt (itoa (-9223372036854775808)) = (-9223372036854775808, NoError)
  /\ Atoi (itoa 50) = (50, NoError).
Proof.
  split.
  - apply (number_round_trip (-9223372036854775808)).
    unfold inInt64, minInt64, maxInt64. lia.
  - apply (number_round_trip 50).
    unfold inInt64, minInt64, maxInt64. lia.
Defined.

(** ** Whole numbers of a unit *)

Lemma twoDecimals_whole (v : Z) :
  0 <= v -> twoDecimals (100 * v) = utoa v ++ ".00".
Proof.
  intros Hv. unfold twoDecimals.
  replace (100 * v / 100) with v by (rewrite Z.mul_comm, Z.div_mul; lia).
  replace (100 * v / 10) with (v * 10)
    by (replace (100 * v) with (v * 10 * 10) by lia;
        rewrite Z.div_mul; lia).
  rewrite Z.mod_mul by lia.
  replace (100 * v) with (v * 10 * 10) by lia.
  rewrite Z.mod_mul by lia. reflexivity.
Qed.

Lemma float64_of_int_exact (b k : Z) :
  0 < b < 2 ^ 63 -> 10 <= k -> b mod 2 ^ k = 0 ->
  intValue (float64_of_int b) = b.
Proof.
  intros Hb Hk Hdiv.
  destruct (Z.lt_ge_cases b (2 ^ 53)) as [Hs|Hl].
  - rewrite float64_of_int_small by lia. unfold intValue. cbn [mant expo]. lia.
  - destruct (float64_of_int_large b ltac:(lia)) as [m [j [E [Hj [Hm Herr]]]]].
    rewrite E. unfold intValue. cbn [mant expo].
    pose proof (pow2_pos j ltac:(lia)) as Hpj.
    assert (Hbj : exists c, b = c * 2 ^ j).
    { apply Z.mod_divide in Hdiv; [|pose proof (pow2_pos k ltac:(lia)); lia].
      destruct Hdiv as [c Hc]. exists (c * 2 ^ (k - j)).
      rewrite Hc. replace k with ((k - j) + j) at 1 by lia.
      rewrite pow2_split by lia. lia. }
    destruct Hbj as [c Hc]. rewrite Hc in *.
    assert (m = c) by nia. subst m. reflexivity.
Qed.

Lemma format_quotient_whole (v n : Z) :
  1 <= v < 2 ^ 42 -> 10 <= n <= 40 -> v * 2 ^ n < 2 ^ 63 ->
  formatFloat2 (fdiv (float64_of_int (v * 2 ^ n)) (mkFloat (2 ^ n) 0))
  = utoa v ++ ".00".
Proof.
  intros Hv Hn Hmax.
  pose proof (pow2_pos n ltac:(lia)) as Hp.
  assert (Hb : 0 < v * 2 ^ n) by nia.
  rewrite format_quotient; try lia.
  - rewrite (float64_of_int_exact _ n) by (try lia; apply Z.mod_mul; lia).
    replace (100 * (v * 2 ^ n)) with (100 * v * 2 ^ n) by lia.
    rewrite roundHalfEven_exact by (try lia; apply Z.mod_mul; lia).
    rewrite Z.div_mul by lia. apply twoDecimals_whole. lia.
  - rewrite bitLen_shift by lia.
    pose proof (bitLen_le v 42 ltac:(lia) ltac:(lia) ltac:(lia)). lia.
Qed.

(** X10: a whole number of units, from 1 to 1023 kilobytes, megabytes or
    gigabytes and from 1 terabyte up to the largest [int64], is written as
    that number with [.00] and the unit. *)
Theorem formatSize_whole_units (v : Z) :
  1 <= v ->
  (v < 1024 -> formatSize (v * KB) = utoa v ++ ".00 KB")
  /\ (v < 1024 -> formatSize (v * MB) = utoa v ++ ".00 MB")
  /\ (v < 1024 -> formatSize (v * GB) = utoa v ++ ".00 GB")
  /\ (v * TB <= maxInt64 -> formatSize (v * TB) = utoa v ++ ".00 TB").
Proof.
  intros Hv.
  change KB with (2 ^ 10). change MB with (2 ^ 20).
  change GB with (2 ^ 30). change TB with (2 ^ 40).
  unfold maxInt64.
  repeat split; intros Hlt; unfold formatSize;
    change KB with (2 ^ 10); change MB with (2 ^ 20);
    change GB with (2 ^ 30); change TB with (2 ^ 40);
    change (float64_of_int (2 ^ 10)) with (mkFloat (2 ^ 10) 0);
    change (float64_of_int (2 ^ 20)) with (mkFloat (2 ^ 20) 0);
    change (float64_of_int (2 ^ 30)) with (mkFloat (2 ^ 30) 0);
    change (float64_of_int (2 ^ 40)) with (mkFloat (2 ^ 40) 0);
    repeat match goal with
           | |- context [if ?a >=? ?c then _ else _] =>
               destruct (Z.geb_spec a c); [|lia]
           | |- context [if ?a >=? ?c then _ else _] =>
               destruct (Z.geb_spec a c); [lia|]
           end;
    rewrite format_quotient_whole by lia;
    rewrite append_assoc; reflexivity.
Qed.

Lemma formatSize_whole_units_witness :
  formatSize (512 * MB) = "512.00 MB".
Proof.
  destruct (formatSize_whole_units 512) as [_ [H _]]; [lia|].
  rewrite H by lia. reflexivity.
Defined.

(** ** Floating point: bounds from below *)

Lemma roundFloat_lower (m e o : Z) :
  0 < m -> 0 <= e + o ->
  m * 2 ^ (e + o) * (2 ^ 52 - 1)
  <= mant (roundFloat m e) * 2 ^ (expo (roundFloat m e) + o) * 2 ^ 52.
Proof.
  intros Hm Heo. unfold roundFloat.
  pose proof (pow2_pos (e + o) Heo) as HP.
  destruct (Z.leb_spec (bitLen m) 53) as [Hs|Hs]; cbn [mant expo].
  - assert (0 <= m * 2 ^ (e + o)) by nia. lia.
  - set (s := bitLen m - 53) in *.
    rewrite Z.sgn_pos, Z.abs_eq by lia.
    pose proof (pow2_pos s ltac:(lia)) as Hps.
    pose proof (roundHalfEven_bounds m (2 ^ s) ltac:(lia) Hps) as [[Hlo Hhi] _].
    pose proof (bitLen_bounds m Hm) as [Hb _].
    replace (bitLen m - 1) with (s + 52) in Hb by (unfold s; lia).
    rewrite pow2_split in Hb by lia.
    pose proof (Z.div_mod m (2 ^ s) ltac:(lia)) as Hdm.
    pose proof (Z.mod_pos_bound m (2 ^ s) Hps) as Hmod.
    set (r := roundHalfEven m (2 ^ s)) in *.
    replace (e + s + o) with (s + (e + o)) by lia.
    rewrite (pow2_split s (e + o)) by lia.
    assert (Hrs : m - 2 ^ s <= r * 2 ^ s) by nia.
    assert (Hr : m * (2 ^ 52 - 1) <= r * 2 ^ s * 2 ^ 52) by lia.
    nia.
Qed.

Lemma truncInt_lower (x : float64) (o : Z) :
  0 < mant x -> 0 <= o -> 0 <= expo x + o ->
  mant x * 2 ^ (expo x + o) < (truncInt x + 1) * 2 ^ o.
Proof.
  intros Hm Ho Hxo. unfold truncInt.
  pose proof (pow2_pos o Ho) as HPo.
  destruct (Z.geb_spec (expo x) 0) as [He|He].
  - pose proof (pow2_pos (expo x) He).
    rewrite pow2_split by lia. nia.
  - pose proof (pow2_pos (- expo x) ltac:(lia)) as HP.
    rewrite Z.quot_div_nonneg by lia.
    pose proof (Z.div_mod (mant x) (2 ^ (- expo x)) ltac:(lia)) as Hdm.
    pose proof (Z.mod_pos_bound (mant x) (2 ^ (- expo x)) HP) as Hmod.
    replace (2 ^ o) with (2 ^ (- expo x) * 2 ^ (expo x + o))
      by (rewrite <- pow2_split by lia; f_equal; lia).
    pose proof (pow2_pos (expo x + o) Hxo).
    set (d := 2 ^ (- expo x)) in *. set (P := 2 ^ (expo x + o)) in *.
    set (q := mant x / d) in *.
    assert (Hlt : mant x < (q + 1) * d) by lia.
    nia.
Qed.

Lemma fdiv_100_lower (mx ex : Z) :
  0 < mx -> mx <= 2 ^ 53 -> 0 <= ex ->
  let y := fdiv (mkFloat mx ex) (mkFloat 100 0) in
  mx * 2 ^ (ex + 63) * ((2 ^ 52 - 1) * (2 ^ 54 - 1))
  <= mant y * 2 ^ (expo y + 63) * (2 ^ 52 * 100 * 2 ^ 54).
Proof.
  intros Hm Hle Hex y. subst y.
  assert (HL : 1 <= bitLen mx <= 54).
  { split.
    - rewrite bitLen_pos by lia. pose proof (Z.log2_nonneg mx). lia.
    - apply bitLen_le; lia. }
  unfold fdiv. cbn [mant expo].
  rewrite (Z.abs_eq mx) by lia.
  change (Z.abs 100) with 100. change (bitLen 100) with 7.
  rewrite Z.max_r by lia.
  set (k := 55 + 7 - bitLen mx).
  set (num := mx * 2 ^ k).
  assert (Hbn : bitLen num = 62).
  { unfold num. rewrite bitLen_shift by (unfold k; lia). unfold k. lia. }
  assert (Hnum0 : 0 < num).
  { unfold num. pose proof (pow2_pos k ltac:(unfold k; lia)). nia. }
  pose proof (bitLen_bounds num Hnum0) as [Hnlo Hnhi].
  rewrite Hbn in Hnlo, Hnhi.
  change (2 ^ (62 - 1)) with 2305843009213693952 in Hnlo.
  pose proof (Z.div_mod num 100 ltac:(lia)) as Hdm.
  pose proof (Z.mod_pos_bound num 100 ltac:(lia)) as Hmod.
  set (q := num / 100) in *.
  set (sticky := if num mod 100 =? 0 then 0 else 1).
  assert (Hst : 0 <= sticky <= 1).
  { unfold sticky. destruct (num mod 100 =? 0); lia. }
  rewrite Z.sgn_pos by lia. change (Z.sgn 100) with 1.
  set (m1 := 1 * 1 * (2 * q + sticky)).
  assert (Hm1 : 0 < m1) by (unfold m1; lia).
  assert (Hm1l : num * (2 ^ 54 - 1) <= m1 * (50 * 2 ^ 54))
    by (unfold m1; lia).
  set (e1 := ex - 0 - k - 1).
  assert (He1 : 0 <= e1 + 63) by (unfold e1, k; lia).
  pose proof (roundFloat_lower m1 e1 63 Hm1 He1) as Hval.
  pose proof (pow2_pos (e1 + 63) He1) as HP1.
  assert (HX : num * 2 ^ (e1 + 63) * 2 = mx * 2 ^ (ex + 63)).
  { unfold num. replace (ex + 63) with (k + (e1 + 63) + 1) by (unfold e1; lia).
    rewrite (pow2_split (k + (e1 + 63)) 1) by (unfold k; lia).
    rewrite (pow2_split k (e1 + 63)) by (unfold k; lia).
    change (2 ^ 1) with 2. lia. }
  assert (HS : num * 2 ^ (e1 + 63) * (2 ^ 54 - 1)
               <= m1 * 2 ^ (e1 + 63) * (50 * 2 ^ 54)) by nia.
  set (A := mant (roundFloat m1 e1) * 2 ^ (expo (roundFloat m1 e1) + 63)) in *.
  set (B := m1 * 2 ^ (e1 + 63)) in *.
  set (NP := num * 2 ^ (e1 + 63)) in *.
  rewrite <- HX. lia.
Qed.

(** From 410 on the used cells are more than the bar holds, and three
    bytes per cell still fit an [int]. *)
Lemma usedChars_large (p : Z) :
  410 <= p <= 2 ^ 63 -> 31 <= usedChars p /\ 3 * usedChars p <= maxInt64.
Proof.
  intros Hp. unfold usedChars, float64_of_int.
  destruct (roundFloat_upper p 0 63 ltac:(lia) ltac:(lia)) as [Hx0 [Hxe Hxv]].
  pose proof (roundFloat_lower p 0 63 ltac:(lia) ltac:(lia)) as Hxl.
  pose proof (roundFloat_mant_le p 0 ltac:(lia)) as Hxm.
  destruct (roundFloat p 0) as [mx ex]. cbn [mant expo] in *.
  destruct (fdiv_100_upper mx ex Hx0 Hxm Hxe) as [Hy0 [Hye Hyv]].
  pose proof (fdiv_100_lower mx ex Hx0 Hxm Hxe) as Hyl.
  cbv zeta in Hyl.
  destruct (fdiv (mkFloat mx ex) (mkFloat 100 0)) as [my ey].
  cbn [mant expo] in *.
  change (roundFloat barWidth 0) with (mkFloat 30 0).
  unfold fmul. cbn [mant expo]. rewrite Z.add_0_r.
  destruct (roundFloat_upper (my * 30) ey 63 ltac:(lia) Hye)
    as [Hz0 [Hze Hzv]].
  pose proof (roundFloat_lower (my * 30) ey 63 ltac:(lia) Hye) as Hzl.
  destruct (truncInt_upper (roundFloat (my * 30) ey) 63 Hz0 ltac:(lia)
                           ltac:(lia)) as [Ht0 Htv].
  pose proof (truncInt_lower (roundFloat (my * 30) ey) 63 Hz0 ltac:(lia)
                             ltac:(lia)) as Htl.
  set (t := truncInt (roundFloat (my * 30) ey)) in *.
  set (Zs := mant (roundFloat (my * 30) ey)
             * 2 ^ (expo (roundFloat (my * 30) ey) + 63)) in *.
  set (Y := my * 2 ^ (ey + 63)) in *.
  set (X := mx * 2 ^ (ex + 63)) in *.
  replace (my * 30 * 2 ^ (ey + 63)) with (30 * Y) in Hzv, Hzl
    by (unfold Y; lia).
  change (2 ^ (0 + 63)) with (2 ^ 63) in Hxv, Hxl.
  unfold maxInt64. split; lia.
Qed.

(** ** When the display fails *)

Lemma usedChars_cases (p : Z) :
  inInt64 p ->
  (barFits p = true /\ 0 <= usedChars p <= 30)
  \/ (barFits p = false /\ usedChars p < 0)
  \/ (barFits p = false /\ 30 < usedChars p /\ 3 * usedChars p <= maxInt64).
Proof.
  unfold inInt64, minInt64, maxInt64, barFits. intros Hp.
  destruct (Z.leb_spec (-3) p) as [H3|H3];
    destruct (Z.leb_spec p 103) as [H103|H103]; cbn [andb].
  - left. split; [reflexivity|].
    assert (H : (0 <=? usedChars p) && (usedChars p <=? 30) = true).
    { apply (forallFrom_spec 107 (-3)
               (fun p => (0 <=? usedChars p) && (usedChars p <=? 30)));
        [vm_compute; reflexivity | lia]. }
    apply andb_true_iff in H. destruct H as [Ha Hb].
    apply Z.leb_le in Ha. apply Z.leb_le in Hb. lia.
  - right. right. split; [reflexivity|].
    destruct (Z.le_gt_cases p 409) as [Hs|Hl].
    + rewrite usedChars_quot by lia.
      assert (31 <= Z.quot (p * 30) 100 <= 123).
      { split; [apply Z.quot_le_lower_bound | apply Z.quot_le_upper_bound];
          lia. }
      lia.
    + pose proof (usedChars_large p ltac:(lia)) as [H1 H2].
      unfold maxInt64 in H2. lia.
  - right. left. split; [reflexivity|].
    destruct (Z.le_gt_cases (-409) p) as [Hs|Hl].
    + rewrite usedChars_quot by lia.
      replace (p * 30) with (- (- p * 30)) by lia.
      rewrite Z.quot_opp_l by lia.
      assert (1 <= Z.quot (- p * 30) 100).
      { apply Z.quot_le_lower_bound; lia. }
      lia.
    + pose proof (usedChars_large (- p) ltac:(lia)) as [H1 _].
      rewrite usedChars_opp in H1. lia.
  - lia.
Qed.

Lemma deviceInfo_cases (st : styles) (di : DiskInfo) :
  -1000 <= UsePercent di <= 1000 ->
  deviceInfo st di =
  if barFits (UsePercent di) then Done (blockText st di)
  else Panic "strings: negative Repeat count".
Proof.
  intros Hb.
  assert (Hp : inInt64 (UsePercent di))
    by (unfold inInt64, minInt64, maxInt64; lia).
  destruct (usedChars_cases _ Hp) as [[Hf Hu]|[[Hf Hu]|[Hf [Hu Hm]]]];
    rewrite Hf.
  - apply deviceInfo_block, Hu.
  - unfold deviceInfo, Repeat, bind.
    destruct (Z.ltb_spec (usedChars (UsePercent di)) 0); [reflexivity | lia].
  - unfold deviceInfo, Repeat, bind, barWidth.
    destruct (Z.ltb_spec (usedChars (UsePercent di)) 0); [lia|].
    change (Z.of_nat (String.length "█")) with 3.
    destruct (Z.gtb_spec (3 * usedChars (UsePercent di)) maxInt64); [lia|].
    rewrite wrap64_small by (unfold minInt64, maxInt64 in *; lia).
    destruct (Z.ltb_spec (30 - usedChars (UsePercent di)) 0);
      [reflexivity | lia].
Qed.

(** X11: for a record with a percentage from -1000 to 1000, where the
    bar has 300 cells at most, the block is written exactly when the
    percentage is from -3 to 103; for the others one of the two cell counts
    is negative and [strings.Repeat] panics. *)
Theorem deviceInfo_outcome (st : styles) (di : DiskInfo) :
  -1000 <= UsePercent di <= 1000 ->
  (-3 <= UsePercent di <= 103 -> deviceInfo st di = Done (blockText st di))
  /\ (UsePercent di < -3 \/ 103 < UsePercent di ->
      deviceInfo st di = Panic "strings: negative Repeat count")
  /\ - 300 <= usedChars (UsePercent di) <= 300.
Proof.
  intros Hp. rewrite (deviceInfo_cases st di Hp). unfold barFits.
  split; [|split].
  - intros H.
    destruct (Z.leb_spec (-3) (UsePercent di));
      destruct (Z.leb_spec (UsePercent di) 103); try lia; reflexivity.
  - intros H.
    destruct (Z.leb_spec (-3) (UsePercent di));
      destruct (Z.leb_spec (UsePercent di) 103); try lia; reflexivity.
  - assert (H : (-300 <=? usedChars (UsePercent di))
                && (usedChars (UsePercent di) <=? 300) = true).
    { apply (forallFrom_spec 2001 (-1000)
               (fun p => (-300 <=? usedChars p) && (usedChars p <=? 300)));
        [vm_compute; reflexivity | lia]. }
    apply andb_true_iff in H. destruct H as [Ha Hb].
    apply Z.leb_le in Ha. apply Z.leb_le in Hb. lia.
Qed.

Lemma deviceInfo_outcome_witness :
  deviceInfo plain
    {| Filesystem := "/dev/sdb"; Size := 102400; Used := 153600;
       Available := 0; UsePercent := 104; MountPoint := "/mnt" |}
  = Panic "strings: negative Repeat count".
Proof.
  destruct (deviceInfo_outcome plain
              {| Filesystem := "/dev/sdb"; Size := 102400; Used := 153600;
                 Available := 0; UsePercent := 104; MountPoint := "/mnt" |})
    as [_ [H _]].
  - cbn [UsePercent]. lia.
  - apply H. cbn [UsePercent]. lia.
Defined.

Lemma viewLoop_cases (st : styles) (infos : list DiskInfo) (sb : string) :
  (forall di, In di infos -> shown di = true ->
              -1000 <= UsePercent di <= 1000) ->
  viewLoop st infos sb =
  if forallb (fun di => barFits (UsePercent di)) (filter shown infos)
  then Done (sb ++ String.concat EmptyString
                                 (map (blockText st) (filter shown infos)))
  else Panic "strings: negative Repeat count".
Proof.
  revert sb. induction infos as [|di rest IH]; intros sb Hall.
  - simpl. now rewrite append_empty_r.
  - cbn [viewLoop filter]. rewrite shown_test.
    assert (Hrest : forall d, In d rest -> shown d = true ->
                              -1000 <= UsePercent d <= 1000)
      by (intros d Hd; apply Hall; now right).
    destruct (shown di) eqn:Hs; [|apply IH, Hrest].
    rewrite (deviceInfo_cases st di) by (apply Hall; [now left | exact Hs]).
    cbn [forallb map].
    destruct (barFits (UsePercent di)); cbn [bind andb]; [|reflexivity].
    rewrite (IH _ Hrest).
    destruct (forallb _ (filter shown rest)); [|reflexivity].
    rewrite append_assoc. f_equal. f_equal.
    generalize (blockText st di). intros b.
    destruct (map (blockText st) (filter shown rest)) as [|x xs].
    + simpl. now rewrite append_empty_r.
    + reflexivity.
Qed.

(** X12: what [View] gives for the records of a text in which every
    record whose filesystem begins with [/] has a percentage from -1000 to
    1000: the loading message when there is no record; otherwise the blocks
    of the records whose filesystem begins with [/], in order, when each of
    these has a percentage from -3 to 103, and a panic of [strings.Repeat]
    for a negative count when one of them has not. *)
Theorem View_of_parsed (st : styles) (output : string) :
  (forall di, In di (parseDfOutput output) -> shown di = true ->
              -1000 <= UsePercent di <= 1000) ->
  View st (mkModel (parseDfOutput output) None) =
  match parseDfOutput output with
  | [] => Done "Loading disk information..."
  | infos =>
      if forallb (fun di => barFits (UsePercent di)) (filter shown infos)
      then Done (String.concat EmptyString
                               (map (blockText st) (filter shown infos)))
      else Panic "strings: negative Repeat count"
  end.
Proof.
  intros Hall. unfold View. cbn [err diskInfos].
  destruct (parseDfOutput output) as [|di rest]; [reflexivity|].
  rewrite (viewLoop_cases st (di :: rest) EmptyString Hall). reflexivity.
Qed.

Lemma View_of_parsed_witness :
  View plain
       (mkModel (parseDfOutput
                   (report "/dev/sda1 1048576 524288 524288 50% /"
                    ++ String nl "/dev/sdb 100 104 0 104% /mnt")) None)
  = Panic "strings: negative Repeat count".
Proof.
  rewrite (View_of_parsed plain).
  - vm_compute. reflexivity.
  - intros di Hin _. vm_compute in Hin.
    destruct Hin as [<-|[<-|[]]]; cbn [UsePercent]; lia.
Defined.

(** ** Messages *)

Lemma Update_passive (m : Model) (msg : Msg) :
  passive msg = true -> fst (Update m msg) = m.
Proof.
  destruct msg as [key| | |]; try discriminate; intros _; [|reflexivity].
  cbn [Update]. destruct (_ || _); reflexivity.
Qed.

Lemma afterMsgs_passive (m : Model) (msgs : list Msg) :
  (forall msg, In msg msgs -> passive msg = true) -> afterMsgs m msgs = m.
Proof.
  unfold afterMsgs. revert m.
  induction msgs as [|msg rest IH]; intros m H; [reflexivity|].
  cbn [fold_left]. rewrite Update_passive by (apply H; now left).
  apply IH. intros x Hx. apply H. now right.
Qed.

Lemma afterMsgs_split (m : Model) (pre post : list Msg) (msg : Msg) :
  afterMsgs m (pre ++ msg :: post)%list
  = afterMsgs (fst (Update (afterMsgs m pre) msg)) post.
Proof. unfold afterMsgs. rewrite fold_left_app. reflexivity. Qed.

(** X13: key presses and messages of other kinds never change the model,
    so they never change what [View] shows; a key press asks to quit
    exactly for [q], [ctrl+c] and [esc]. *)
Theorem keys_keep_model (st : styles) (m : Model) (msgs : list Msg) :
  (forall msg, In msg msgs -> passive msg = true) ->
  afterMsgs m msgs = m
  /\ View st (afterMsgs m msgs) = View st m
  /\ (forall key,
         snd (Update m (KeyMsg key)) = CmdQuit
         <-> (key = "q" \/ key = "ctrl+c" \/ key = "esc")).
Proof.
  intros H. rewrite (afterMsgs_passive m msgs H).
  split; [reflexivity|]. split; [reflexivity|].
  intros key. cbn [Update].
  destruct (String.eqb_spec key "q") as [->|N1]; [cbn; tauto|].
  destruct (String.eqb_spec key "ctrl+c") as [->|N2]; [cbn; tauto|].
  destruct (String.eqb_spec key "esc") as [->|N3]; [cbn; tauto|].
  cbn. split; [discriminate | tauto].
Qed.

Lemma keys_keep_model_witness :
  View plain (afterMsgs (mkModel [] (Some "exit status 1"))
                        [KeyMsg "j"; OtherMsg; KeyMsg "q"])
  = Done "Error: exit status 1".
Proof.
  destruct (keys_keep_model plain (mkModel [] (Some "exit status 1"))
              [KeyMsg "j"; OtherMsg; KeyMsg "q"]) as [_ [H _]].
  - intros msg [<-|[<-|[<-|[]]]]; reflexivity.
  - rewrite H. reflexivity.
Defined.

(** X14: the records of a message replace the model whatever came before,
    an earlier error included: after it, and any key presses, the model
    holds these records and no error. *)
Theorem records_supersede (st : styles) (m : Model) (pre post : list Msg)
        (infos : list DiskInfo) :
  (forall msg, In msg post -> passive msg = true) ->
  afterMsgs m (pre ++ DiskInfosMsg infos :: post)%list = mkModel infos None
  /\ View st (afterMsgs m (pre ++ DiskInfosMsg infos :: post)%list)
     = View st (mkModel infos None).
Proof.
  intros H. rewrite afterMsgs_split. cbn [Update fst].
  rewrite (afterMsgs_passive _ post H). split; reflexivity.
Qed.

Lemma records_supersede_witness :
  afterMsgs (mkModel [] None)
            [ErrorMsg "exit status 1"; DiskInfosMsg []; KeyMsg "x"]
  = mkModel [] None.
Proof.
  apply (records_supersede plain (mkModel [] None)
           [ErrorMsg "exit status 1"] [KeyMsg "x"] []).
  intros msg [<-|[]]. reflexivity.
Defined.

(** X15: an error message hides the records without removing them: after
    it, and any key presses, [View] shows the error text alone, and the
    model still holds the records it had. *)
Theorem error_hides_records (st : styles) (m : Model) (pre post : list Msg)
        (e : string) :
  (forall msg, In msg post -> passive msg = true) ->
  View st (afterMsgs m (pre ++ ErrorMsg e :: post)%list)
  = Done ("Error: " ++ e)
  /\ diskInfos (afterMsgs m (pre ++ ErrorMsg e :: post)%list)
     = diskInfos (afterMsgs m pre).
Proof.
  intros H. rewrite afterMsgs_split. cbn [Update fst].
  rewrite (afterMsgs_passive _ post H). split; reflexivity.
Qed.

Lemma error_hides_records_witness :
  View plain
       (afterMsgs (mkModel [] None)
                  [DiskInfosMsg (parseDfOutput sampleReport);
                   ErrorMsg "signal: killed"; KeyMsg "q"])
  = Done "Error: signal: killed".
Proof.
  apply (error_hides_records plain (mkModel [] None)
           [DiskInfosMsg (parseDfOutput sampleReport)] [KeyMsg "q"]
           "signal: killed").
  intros msg [<-|[]]. reflexivity.
Defined.

(** X16: one run from the empty model.  The message of [getDiskInfoCmd]
    always makes [Update] ask to quit.  When the query failed, [View] shows
    the error, whatever output came with it.  When it succeeded and no line
    after the first is accepted, the model holds no record and [View] still
    shows the loading message. *)
Theorem single_run (st : styles) (output : string) (failure : option string) :
  let r := Update (mkModel [] None) (getDiskInfoCmd output failure) in
  snd r = CmdQuit
  /\ (forall e, failure = Some e -> View st (fst r) = Done ("Error: " ++ e))
  /\ (failure = None ->
      (forall raw, In raw (skipn 1 (Split output nl)) -> accepted raw = false) ->
      View st (fst r) = Done "Loading disk information...").
Proof.
  cbv zeta. split; [destruct failure; reflexivity|]. split.
  - intros e ->. reflexivity.
  - intros -> Hnone. cbn [getDiskInfoCmd Update fst].
    assert (E : parseDfOutput output = []).
    { rewrite parseDfOutput_flat_map.
      induction (skipn 1 (Split output nl)) as [|raw rest IH]; [reflexivity|].
      cbn [flat_map]. rewrite lineRecords_cases.
      rewrite (Hnone raw) by (now left).
      apply IH. intros x Hx. apply Hnone. now right. }
    rewrite E. reflexivity.
Qed.

Lemma single_run_witness :
  View plain (fst (Update (mkModel [] None)
                          (getDiskInfoCmd (report "overlay 1 1 1 5% /") None)))
  = Done "Loading disk information...".
Proof.
  destruct (single_run plain (report "overlay 1 1 1 5% /") None)
    as [_ [_ H]].
  apply H; [reflexivity|].
  intros raw Hin. vm_compute in Hin. destruct Hin as [<-|[]].
  vm_compute. reflexivity.
Defined.
